(** * go-clickhouse: the native protocol engine ([ch/proto.go]) and the
    migration runner ([chmigrate]), embedded as Rocq functions.

    Go values are modelled as follows.
    - [uint64] is [N], [int] and [int32] are [Z]; conversions that can wrap
      are written out ([int_of_uint64], [uint64_of_int], [add_int]).
    - a Go [string] is a [string] of bytes.
    - a Go [error] that may be [nil] is an [option error].
    - a [*chproto.Reader] is the list of the outcomes of the successive read
      calls still to come; every function that reads takes the reader and
      returns the reader it leaves behind.
    - a [*chproto.Writer] is the list of the values written so far. *)

From Stdlib Require Import List String Ascii ZArith NArith Lia Bool DecimalString.
Import ListNotations.

Open Scope list_scope.

(* ------------------------------------------------------------------------- *)
(** ** The parts of Go's [strings] and [fmt] packages that the code calls *)

Module strings.

(** [strings.HasPrefix]. *)
Fixpoint HasPrefix (s prefix : string) {struct prefix} : bool :=
  match prefix with
  | EmptyString => true
  | String p prefix' =>
      match s with
      | EmptyString => false
      | String c s' => Ascii.eqb c p && HasPrefix s' prefix'
      end
  end.

(** [s[n:]] for [n <= len(s)]. *)
Fixpoint drop (n : nat) (s : string) : string :=
  match n, s with
  | O, _ => s
  | S _, EmptyString => EmptyString
  | S n', String _ s' => drop n' s'
  end.

(** [strings.TrimPrefix]: one leading occurrence of [prefix] is removed. *)
Definition TrimPrefix (s prefix : string) : string :=
  if HasPrefix s prefix then drop (String.length prefix) s else s.

(** [strings.Contains]. *)
Fixpoint Contains (s substr : string) : bool :=
  HasPrefix s substr
  || match s with
     | EmptyString => false
     | String _ s' => Contains s' substr
     end.

(** The white space of [strings.TrimSpace].  A Go string is a string of
    bytes, read as UTF-8.  [TrimSpace] removes from both ends the runes for
    which [unicode.IsSpace] holds: tab, line feed, vertical tab, form feed,
    carriage return and space, U+0085 and U+00A0, U+1680, U+2000 to U+200A,
    U+2028, U+2029, U+202F, U+205F and U+3000.  Only the shortest encoding
    of a rune is well formed, and ill-formed bytes decode to U+FFFD, which
    is not white space.  So the rune at the start of a text
    ([utf8.DecodeRuneInString]) and the rune at its end
    ([utf8.DecodeLastRuneInString], which steps back to the nearest byte
    that starts a rune) are white space exactly when the bytes there are
    one of the encodings below. *)

(** The six white-space bytes of ASCII. *)
Definition isSpace (c : ascii) : bool :=
  let n := nat_of_ascii c in
  (Nat.eqb n 9 || Nat.eqb n 10 || Nat.eqb n 11 || Nat.eqb n 12
   || Nat.eqb n 13 || Nat.eqb n 32)%bool.

Definition is_byte (c : ascii) (n : nat) : bool :=
  Nat.eqb (nat_of_ascii c) n.

(** [c2 85] and [c2 a0]: U+0085 and U+00A0. *)
Definition space2 (c d : ascii) : bool :=
  is_byte c 194 && (is_byte d 133 || is_byte d 160).

(** [e1 9a 80]: U+1680; [e2 80 80] to [e2 80 8a]: U+2000 to U+200A;
    [e2 80 a8], [e2 80 a9], [e2 80 af]: U+2028, U+2029, U+202F;
    [e2 81 9f]: U+205F; [e3 80 80]: U+3000. *)
Definition space3 (c d e : ascii) : bool :=
  (is_byte c 225 && is_byte d 154 && is_byte e 128)
  || (is_byte c 226 && is_byte d 128
      && ((Nat.leb 128 (nat_of_ascii e) && Nat.leb (nat_of_ascii e) 138)
          || is_byte e 168 || is_byte e 169 || is_byte e 175))
  || (is_byte c 226 && is_byte d 129 && is_byte e 159)
  || (is_byte c 227 && is_byte d 128 && is_byte e 128).

Section Trim.

(** Whether two, or three, bytes in the order of reading are a white-space
    rune. *)
Variable two : ascii -> ascii -> bool.
Variable three : ascii -> ascii -> ascii -> bool.

(** The white-space runes at the head of the bytes are dropped. *)
Fixpoint trim (l : list ascii) : list ascii :=
  match l with
  | [] => []
  | c :: l1 =>
      if isSpace c then trim l1
      else
        match l1 with
        | [] => l
        | d :: l2 =>
            if two c d then trim l2
            else
              match l2 with
              | [] => l
              | e :: l3 => if three c d e then trim l3 else l
              end
        end
  end.

(** Whether the bytes begin with a white-space rune. *)
Definition starts (l : list ascii) : bool :=
  match l with
  | [] => false
  | c :: l1 =>
      isSpace c
      || match l1 with
         | [] => false
         | d :: l2 =>
             two c d
             || match l2 with
                | [] => false
                | e :: _ => three c d e
                end
         end
  end.

End Trim.

(** [strings.TrimLeftFunc(s, unicode.IsSpace)]. *)
Definition TrimLeft (s : string) : string :=
  string_of_list_ascii (trim space2 space3 (list_ascii_of_string s)).

(** [strings.TrimRightFunc(s, unicode.IsSpace)]: the bytes are read from
    the end, the last byte of a rune first. *)
Definition TrimRight (s : string) : string :=
  string_of_list_ascii
    (rev (trim (fun d c => space2 c d) (fun e d c => space3 c d e)
               (rev (list_ascii_of_string s)))).

(** [strings.TrimSpace]. *)
Definition TrimSpace (s : string) : string := TrimRight (TrimLeft s).

(** Whether a string starts, or ends, with white space. *)
Definition startsWithSpace (s : string) : bool :=
  starts space2 space3 (list_ascii_of_string s).

Definition endsWithSpace (s : string) : bool :=
  starts (fun d c => space2 c d) (fun e d c => space3 c d e)
         (rev (list_ascii_of_string s)).

End strings.

Module fmt.

(** The verb [%d] applied to a [uint64]. *)
Definition d (v : N) : string := NilZero.string_of_uint (N.to_uint v).

End fmt.

(* ------------------------------------------------------------------------- *)
(** ** Package [ch] *)

Module ch.

(** *** Errors *)

(** The error values that flow through [proto.go].  [Error] is the struct
    [ch.Error] that [readException] fills; [ErrorRef exc] is the pointer
    [&exc] seen as an [error]. *)
Inductive error : Type :=
| readError (text : string)
    (* an error returned by the reader or by a column codec *)
| errorString (text : string)
    (* the value of errors.New and of fmt.Errorf without %w *)
| ErrorRef (exc : Error)
with Error : Type :=
| mkError (Code : Z) (Name Message StackTrace : string)
          (nested : option error).

Definition Code (exc : Error) : Z :=
  let '(mkError c _ _ _ _) := exc in c.
Definition Name (exc : Error) : string :=
  let '(mkError _ n _ _ _) := exc in n.
Definition Message (exc : Error) : string :=
  let '(mkError _ _ m _ _) := exc in m.
Definition StackTrace (exc : Error) : string :=
  let '(mkError _ _ _ s _) := exc in s.
Definition nested (exc : Error) : option error :=
  let '(mkError _ _ _ _ n) := exc in n.

(** The chain of causes below an error: the [nested] field followed as
    long as it holds an [Error], outermost cause first. *)
Fixpoint causes (e : error) : list error :=
  match e with
  | ErrorRef (mkError _ _ _ _ (Some n)) => n :: causes n
  | _ => []
  end.

(** *** chproto.Reader *)

(** Modelled from the spec: package [chproto] is not part of the sources.
    The reader decodes unsigned varints, length-prefixed strings,
    single-byte booleans and little-endian signed 32-bit integers from the
    connection, and the per-type column codecs read through it.  The model
    keeps the decoded values: a reader is the script of the outcomes of
    the read calls to come, each call taking the next outcome.  [Fail_]
    is a call that the transport fails; a call of another kind than the
    script holds, or one on an exhausted script, fails too. *)
Inductive item : Type :=
| Uvarint_ (v : N)
| String_ (s : string)
| Bool_ (b : bool)
| Int32_ (v : Z)
| Column_ (values : list string)
| Fail_ (text : string).

Definition Reader : Type := list item.

(** A Go result pair [(v, err)] of which one side is meaningful. *)
Inductive ret (A : Type) : Type :=
| Ok (v : A)
| Fail (err : error).
Arguments Ok {A} v.
Arguments Fail {A} err.

Definition EOF : error := readError "EOF".
Definition malformed : error := readError "malformed input".

Definition rd_Uvarint (rd : Reader) : Reader * ret N :=
  match rd with
  | [] => ([], Fail EOF)
  | Uvarint_ v :: rd' => (rd', Ok v)
  | Fail_ t :: rd' => (rd', Fail (readError t))
  | _ :: rd' => (rd', Fail malformed)
  end.

Definition rd_String (rd : Reader) : Reader * ret string :=
  match rd with
  | [] => ([], Fail EOF)
  | String_ s :: rd' => (rd', Ok s)
  | Fail_ t :: rd' => (rd', Fail (readError t))
  | _ :: rd' => (rd', Fail malformed)
  end.

Definition rd_Bool (rd : Reader) : Reader * ret bool :=
  match rd with
  | [] => ([], Fail EOF)
  | Bool_ b :: rd' => (rd', Ok b)
  | Fail_ t :: rd' => (rd', Fail (readError t))
  | _ :: rd' => (rd', Fail malformed)
  end.

Definition rd_Int32 (rd : Reader) : Reader * ret Z :=
  match rd with
  | [] => ([], Fail EOF)
  | Int32_ v :: rd' => (rd', Ok v)
  | Fail_ t :: rd' => (rd', Fail (readError t))
  | _ :: rd' => (rd', Fail malformed)
  end.

(** Functions of Go type [func(rd) error] are written in this monad: the
    reader is threaded and the first error stops the sequence. *)
Definition M (A : Type) : Type := Reader -> Reader * ret A.

Definition mret {A} (v : A) : M A := fun rd => (rd, Ok v).

Definition mbind {A B} (m : M A) (k : A -> M B) : M B :=
  fun rd =>
    match m rd with
    | (rd', Ok v) => k v rd'
    | (rd', Fail err) => (rd', Fail err)
    end.

Notation "x <- m ;; k" := (mbind m (fun x => k))
  (at level 61, m at next level, right associativity).
Notation "m ;;; k" := (mbind m (fun _ => k))
  (at level 61, right associativity).

(** The [error] result of such a function. *)
Definition err_of {A} (r : ret A) : option error :=
  match r with
  | Ok _ => None
  | Fail err => Some err
  end.

(** *** Loops and recursion over the reader

    The Go loops are [for { ... }] and [readException] calls itself; both
    go on for as long as the server sends.  A script is finite and every
    round takes at least one outcome from it, so [S (length rd)] rounds
    are enough.  [body] is one round, calling [self] where the Go code
    goes round again; [stuck] is only the value of a round that is never
    reached. *)
Section Loop.
Context {St Res : Type}.
Variable body : (St -> Reader -> Res) -> St -> Reader -> Res.
Variable stuck : St -> Reader -> Res.

Fixpoint iter (fuel : nat) : St -> Reader -> Res :=
  match fuel with
  | O => stuck
  | S fuel' => body (iter fuel')
  end.

Definition loop (st : St) (rd : Reader) : Res :=
  iter (S (List.length rd)) st rd.
End Loop.

(** [m] never lengthens the script. *)
Definition shrinks {A} (m : M A) : Prop :=
  forall rd, List.length (fst (m rd)) <= List.length rd.

(** [m] takes at least one outcome when it succeeds. *)
Definition consumes {A} (m : M A) : Prop :=
  forall rd rd' v, m rd = (rd', Ok v) -> List.length rd' < List.length rd.

(** A round calls [self] on shorter scripts only. *)
Definition local {St Res}
    (body : (St -> Reader -> Res) -> St -> Reader -> Res) : Prop :=
  forall f g st rd,
    (forall st' rd', List.length rd' < List.length rd ->
                     f st' rd' = g st' rd') ->
    body f st rd = body g st rd.

(** *** readException (proto.go 144-173) *)

Definition readException_body
    (self : unit -> Reader -> Reader * option error)
    (_ : unit) (rd : Reader) : Reader * option error :=
  match rd_Int32 rd with
  | (rd, Fail err) => (rd, Some err)
  | (rd, Ok code) =>
  match rd_String rd with
  | (rd, Fail err) => (rd, Some err)
  | (rd, Ok name) =>
  match rd_String rd with
  | (rd, Fail err) => (rd, Some err)
  | (rd, Ok message) =>
  let message :=
    strings.TrimSpace (strings.TrimPrefix message (name ++ ":")%string) in
  match rd_String rd with
  | (rd, Fail err) => (rd, Some err)
  | (rd, Ok stackTrace) =>
  match rd_Bool rd with
  | (rd, Fail err) => (rd, Some err)
  | (rd, Ok hasNested) =>
      let '(rd, nested) :=
        if hasNested then self tt rd else (rd, None) in
      (rd, Some (ErrorRef (mkError code name message stackTrace nested)))
  end end end end end.

Definition readException (rd : Reader) : Reader * option error :=
  loop readException_body (fun _ rd => (rd, None)) tt rd.

(** *** Packet vocabulary *)

(** The opcode constants of package [chproto] are not part of the sources
    and are taken as a parameter.  A Go [switch] does not compile with two
    equal constant cases, and the constants of one vocabulary are numbered
    apart, which is all the code relies on. *)
Class Opcodes : Type := {
  ClientHello : N;
  ServerHello : N;
  ServerData : N;
  ServerException : N;
  ServerProgress : N;
  ServerPong : N;
  ServerEndOfStream : N;
  ServerProfileInfo : N;
  ServerTableColumns : N;
  server_opcodes_distinct :
    NoDup [ServerHello; ServerData; ServerException; ServerProgress;
           ServerPong; ServerEndOfStream; ServerProfileInfo;
           ServerTableColumns]
}.

(** The numbering of ClickHouse's native protocol, used for the worked
    examples. *)
Definition clickhouse_opcodes_distinct :
  NoDup [0; 1; 2; 3; 4; 5; 6; 11]%N.
Proof.
  repeat (constructor; [cbn; intuition discriminate|]). constructor.
Qed.

Definition clickhouse : Opcodes := {|
  ClientHello := 0;
  ServerHello := 0;
  ServerData := 1;
  ServerException := 2;
  ServerProgress := 3;
  ServerPong := 4;
  ServerEndOfStream := 5;
  ServerProfileInfo := 6;
  ServerTableColumns := 11;
  server_opcodes_distinct := clickhouse_opcodes_distinct
|}.

(** *** Integers *)

(** [int(v)] for a [uint64] on a 64-bit platform. *)
Definition int_of_uint64 (v : N) : Z :=
  let z := (Z.of_N v mod 2 ^ 64)%Z in
  if (z <? 2 ^ 63)%Z then z else (z - 2 ^ 64)%Z.

(** [uint64(v)] for an [int] or [int64]. *)
Definition uint64_of_int (v : Z) : N := Z.to_N (v mod 2 ^ 64).

(** [a + b] on [int]: two's complement on 64 bits. *)
Definition add_int (a b : Z) : Z :=
  ((a + b + 2 ^ 63) mod 2 ^ 64 - 2 ^ 63)%Z.

(** *** Blocks (package chschema) and results *)

Record Column : Type := {
  colName : string;
  colType : string;
  colValues : list string
}.

Record Block : Type := {
  NumColumn : Z;
  NumRow : Z;
  Columns : list Column
}.

(** [new(chschema.Block)]. *)
Definition newBlock : Block :=
  {| NumColumn := 0; NumRow := 0; Columns := [] |}.

(** Modelled from the spec: [Block.Column] is not part of the sources.
    The target block accumulates its columns in wire order; the column
    asked for is added at the end, still without values. *)
Definition Block_Column (block : Block) (name type : string) : Block :=
  {| NumColumn := NumColumn block;
     NumRow := NumRow block;
     Columns :=
       Columns block
       ++ [{| colName := name; colType := type; colValues := [] |}] |}.

(** Modelled from the spec: the per-type column codec [Column.ReadFrom]
    is not part of the sources.  It materialises the values of one column
    through the reader; its outcome is the next entry of the script. *)
Definition Column_ReadFrom (rd : Reader) (numRow : Z)
  : Reader * ret (list string) :=
  match rd with
  | [] => ([], Fail EOF)
  | Column_ values :: rd' => (rd', Ok values)
  | Fail_ t :: rd' => (rd', Fail (readError t))
  | _ :: rd' => (rd', Fail malformed)
  end.

(** The column handed out by [Block_Column] receives its values. *)
Definition Block_fill (block : Block) (values : list string) : Block :=
  {| NumColumn := NumColumn block;
     NumRow := NumRow block;
     Columns :=
       match rev (Columns block) with
       | [] => []
       | col :: before =>
           rev before
           ++ [{| colName := colName col; colType := colType col;
                  colValues := values |}]
       end |}.

(** The struct [result] of package [ch]. *)
Record result : Type := { affected : Z }.

(** [new(result)]. *)
Definition new_result : result := {| affected := 0 |}.

(** *** Packet payloads that are read and dropped *)

(** proto.go 175-195 *)
Definition readProfileInfo : M unit :=
  rd_Uvarint ;;; rd_Uvarint ;;; rd_Uvarint ;;; rd_Bool ;;;
  rd_Uvarint ;;; rd_Bool ;;; mret tt.

(** proto.go 197-214 *)
Definition readProgress : M unit :=
  rd_Uvarint ;;; rd_Uvarint ;;; rd_Uvarint ;;; rd_Uvarint ;;;
  rd_Uvarint ;;; mret tt.

(** proto.go 490-500 *)
Definition readServerTableColumns : M unit :=
  rd_String ;;; rd_String ;;; mret tt.

(** proto.go 464-484 *)
Definition readBlockInfo : M unit :=
  rd_Uvarint ;;; rd_Bool ;;; rd_Uvarint ;;; rd_Int32 ;;;
  rd_Uvarint ;;; mret tt.

(** *** readBlock (proto.go 415-462) *)

(** The [for] loop over the columns; [todo] is [int(numColumn) - i]. *)
Fixpoint readBlock_columns (todo : nat) (numRow : N)
    (rd : Reader) (block : Block) : Reader * Block * option error :=
  match todo with
  | O => (rd, block, None)
  | S todo' =>
    match rd_String rd with
    | (rd, Fail err) => (rd, block, Some err)
    | (rd, Ok colName) =>
    if String.eqb colName "" then
      (rd, block, Some (errorString "ch: column has empty name"))
    else
    match rd_String rd with
    | (rd, Fail err) => (rd, block, Some err)
    | (rd, Ok colType) =>
    if String.eqb colType "" then
      (rd, block,
       Some (errorString
               ("ch: column=" ++ colName ++ " has empty type")%string))
    else
    let block := Block_Column block colName colType in
    match Column_ReadFrom rd (int_of_uint64 numRow) with
    | (rd, Fail err) => (rd, block, Some err)
    | (rd, Ok values) =>
        readBlock_columns todo' numRow rd (Block_fill block values)
    end end end
  end.

(** Modelled from the spec: [Reader.WithCompression] is not part of the
    sources.  Decompression is transparent to the function that reads
    inside the envelope, which sees the decoded values. *)
Definition WithCompression {A} (fn : Reader -> A) (rd : Reader) : A :=
  fn rd.

Definition readBlock (rd : Reader) (block : Block)
  : Reader * Block * option error :=
  match rd_String rd with
  | (rd, Fail err) => (rd, block, Some err)
  | (rd, Ok _) =>
  WithCompression (fun rd =>
    match readBlockInfo rd with
    | (rd, Fail err) => (rd, block, Some err)
    | (rd, Ok _) =>
    match rd_Uvarint rd with
    | (rd, Fail err) => (rd, block, Some err)
    | (rd, Ok numColumn) =>
    match rd_Uvarint rd with
    | (rd, Fail err) => (rd, block, Some err)
    | (rd, Ok numRow) =>
      let block :=
        {| NumColumn := int_of_uint64 numColumn;
           NumRow := int_of_uint64 numRow;
           Columns := Columns block |} in
      readBlock_columns (Z.to_nat (int_of_uint64 numColumn)) numRow
                        rd block
    end end end) rd
  end.

(** *** The packet-dispatch loops *)

Section Dispatch.
Context {opcodes : Opcodes}.

(** proto.go 316-340 *)
Definition readSampleBlock_body
    (self : unit -> Reader -> Reader * (option Block * option error))
    (_ : unit) (rd : Reader) : Reader * (option Block * option error) :=
  match rd_Uvarint rd with
  | (rd, Fail err) => (rd, (None, Some err))
  | (rd, Ok packet) =>
    if N.eqb packet ServerData then
      let block := newBlock in
      match readBlock rd block with
      | (rd, block, Some err) => (rd, (None, Some err))
      | (rd, block, None) => (rd, (Some block, None))
      end
    else if N.eqb packet ServerTableColumns then
      match readServerTableColumns rd with
      | (rd, Fail err) => (rd, (None, Some err))
      | (rd, Ok _) => self tt rd
      end
    else if N.eqb packet ServerException then
      let '(rd, err) := readException rd in (rd, (None, err))
    else
      (rd, (None,
            Some (errorString
                    ("ch: readSampleBlock: unexpected packet: "
                     ++ fmt.d packet)%string)))
  end.

Definition readSampleBlock (rd : Reader)
  : Reader * (option Block * option error) :=
  loop readSampleBlock_body (fun _ rd => (rd, (None, None))) tt rd.

(** proto.go 342-381.  The state of the loop is the pair of [res] and
    of the scratch [block]. *)
Definition readDataBlocks_body
    (self : option result * Block -> Reader
            -> Reader * (option result * option error))
    (st : option result * Block) (rd : Reader)
  : Reader * (option result * option error) :=
  let '(res, block) := st in
  match rd_Uvarint rd with
  | (rd, Fail err) => (rd, (None, Some err))
  | (rd, Ok packet) =>
    if N.eqb packet ServerData then
      match readBlock rd block with
      | (rd, block, Some err) => (rd, (None, Some err))
      | (rd, block, None) =>
          let res :=
            match res with
            | None => new_result
            | Some res => res
            end in
          let res :=
            {| affected := add_int (affected res) (NumRow block) |} in
          self (Some res, block) rd
      end
    else if N.eqb packet ServerException then
      let '(rd, err) := readException rd in (rd, (None, err))
    else if N.eqb packet ServerProgress then
      match readProgress rd with
      | (rd, Fail err) => (rd, (None, Some err))
      | (rd, Ok _) => self (res, block) rd
      end
    else if N.eqb packet ServerProfileInfo then
      match readProfileInfo rd with
      | (rd, Fail err) => (rd, (None, Some err))
      | (rd, Ok _) => self (res, block) rd
      end
    else if N.eqb packet ServerTableColumns then
      match readServerTableColumns rd with
      | (rd, Fail err) => (rd, (None, Some err))
      | (rd, Ok _) => self (res, block) rd
      end
    else if N.eqb packet ServerEndOfStream then
      (rd, (res, None))
    else
      (rd, (None,
            Some (errorString
                    ("ch: readDataBlocks: unexpected packet: "
                     ++ fmt.d packet)%string)))
  end.

(** The loop entered with [res] and [block] as they stand. *)
Definition readDataBlocks_from (res : option result) (block : Block)
    (rd : Reader) : Reader * (option result * option error) :=
  loop readDataBlocks_body (fun _ rd => (rd, (None, None)))
       (res, block) rd.

Definition readDataBlocks (rd : Reader)
  : Reader * (option result * option error) :=
  readDataBlocks_from None newBlock rd.

(** proto.go 383-413 *)
Definition readPacket (rd : Reader)
  : Reader * (option result * option error) :=
  match rd_Uvarint rd with
  | (rd, Fail err) => (rd, (None, Some err))
  | (rd, Ok packet) =>
    let res := new_result in
    if N.eqb packet ServerException then
      let '(rd, err) := readException rd in (rd, (None, err))
    else if N.eqb packet ServerProgress then
      match readProgress rd with
      | (rd, Fail err) => (rd, (None, Some err))
      | (rd, Ok _) => (rd, (Some res, None))
      end
    else if N.eqb packet ServerProfileInfo then
      match readProfileInfo rd with
      | (rd, Fail err) => (rd, (None, Some err))
      | (rd, Ok _) => (rd, (Some res, None))
      end
    else if N.eqb packet ServerTableColumns then
      match readServerTableColumns rd with
      | (rd, Fail err) => (rd, (None, Some err))
      | (rd, Ok _) => (rd, (Some res, None))
      end
    else if N.eqb packet ServerEndOfStream then
      (rd, (Some res, None))
    else
      (rd, (None,
            Some (errorString
                    ("ch: readPacket: unexpected packet: "
                     ++ fmt.d packet)%string)))
  end.

(** proto.go 220-238.  Every case of the [switch] returns, so the
    [for] never comes round again and [self] is not called. *)
Definition readPong_body
    (self : unit -> Reader -> Reader * option error)
    (_ : unit) (rd : Reader) : Reader * option error :=
  match rd_Uvarint rd with
  | (rd, Fail err) => (rd, Some err)
  | (rd, Ok packet) =>
    if N.eqb packet ServerPong then (rd, None)
    else if N.eqb packet ServerException then readException rd
    else if N.eqb packet ServerEndOfStream then (rd, None)
    else
      (rd, Some (errorString
                   ("ch: readPong: unexpected packet: "
                    ++ fmt.d packet)%string))
  end.

Definition readPong (rd : Reader) : Reader * option error :=
  loop readPong_body (fun _ rd => (rd, None)) tt rd.

(** *** The streaming block iterator (proto.go 23-106) *)

(** Modelled from the spec: [ServerInfo] and its [ReadFrom] are not part
    of the sources.  The negotiated connection metadata is a name and
    the version numbers major, minor and revision, read in that
    order. *)
Record ServerInfo : Type := {
  srvName : string;
  MajorVer : N;
  MinorVer : N;
  Revision : N
}.

Definition ServerInfo_ReadFrom (srv : ServerInfo) (rd : Reader)
  : Reader * ServerInfo * option error :=
  match rd_String rd with
  | (rd, Fail err) => (rd, srv, Some err)
  | (rd, Ok name) =>
  match rd_Uvarint rd with
  | (rd, Fail err) => (rd, srv, Some err)
  | (rd, Ok major) =>
  match rd_Uvarint rd with
  | (rd, Fail err) => (rd, srv, Some err)
  | (rd, Ok minor) =>
  match rd_Uvarint rd with
  | (rd, Fail err) => (rd, srv, Some err)
  | (rd, Ok revision) =>
      (rd,
       {| srvName := name; MajorVer := major; MinorVer := minor;
          Revision := revision |},
       None)
  end end end end.

(** What the code writes to a [*chproto.Writer]. *)
Inductive written : Type :=
| wUvarint (v : N)
| wString (s : string)
| wBool (b : bool)
| wInt32 (v : Z).

Definition Writer : Type := list written.

Definition wr_Uvarint (v : N) (wr : Writer) : Writer :=
  wr ++ [wUvarint v].
Definition wr_String (s : string) (wr : Writer) : Writer :=
  wr ++ [wString s].
Definition wr_Bool (b : bool) (wr : Writer) : Writer :=
  wr ++ [wBool b].

(** Modelled from the spec: [chpool.Conn] is not part of the sources.
    A connection carries the reader over what the server sends, what
    has reached the server, the outcome of flushing a write, and the
    [ServerInfo] filled by the handshake. *)
Record Conn : Type := {
  cn_rd : Reader;
  cn_sent : list written;
  cn_flush : option error;
  cn_ServerInfo : ServerInfo
}.

Definition set_rd (cn : Conn) (rd : Reader) : Conn :=
  {| cn_rd := rd; cn_sent := cn_sent cn; cn_flush := cn_flush cn;
     cn_ServerInfo := cn_ServerInfo cn |}.

(** The pool of the [*DB] that the iterator points to.  Modelled from
    the spec: [DB.releaseConn] is not part of the sources; the pool
    takes a connection back together with the error it is released
    with, and the model keeps the log of these calls. *)
Record Pool : Type := {
  released : list (Conn * option error)
}.

Definition releaseConn (db : Pool) (cn : Conn) (err : option error)
  : Pool :=
  {| released := released db ++ [(cn, err)] |}.

Record blockIter : Type := {
  cn : option Conn;
  stickyErr : option error
}.

(** proto.go 30-35 *)
Definition newBlockIter (c : Conn) : blockIter :=
  {| cn := Some c; stickyErr := None |}.

(** proto.go 72-106 *)
Definition blockIter_read_body
    (self : Block -> Reader -> Reader * Block * (bool * option error))
    (block : Block) (rd : Reader)
  : Reader * Block * (bool * option error) :=
  match rd_Uvarint rd with
  | (rd, Fail err) => (rd, block, (false, Some err))
  | (rd, Ok packet) =>
    if N.eqb packet ServerData then
      match readBlock rd block with
      | (rd, block, Some err) => (rd, block, (false, Some err))
      | (rd, block, None) => (rd, block, (true, None))
      end
    else if N.eqb packet ServerException then
      let '(rd, err) := readException rd in (rd, block, (false, err))
    else if N.eqb packet ServerProgress then
      match readProgress rd with
      | (rd, Fail err) => (rd, block, (false, Some err))
      | (rd, Ok _) => self block rd
      end
    else if N.eqb packet ServerProfileInfo then
      match readProfileInfo rd with
      | (rd, Fail err) => (rd, block, (false, Some err))
      | (rd, Ok _) => self block rd
      end
    else if N.eqb packet ServerTableColumns then
      match readServerTableColumns rd with
      | (rd, Fail err) => (rd, block, (false, Some err))
      | (rd, Ok _) => self block rd
      end
    else if N.eqb packet ServerEndOfStream then
      (rd, block, (false, None))
    else
      (rd, block,
       (false,
        Some (errorString
                ("ch: blockIter.Next: unexpected packet: "
                 ++ fmt.d packet)%string)))
  end.

Definition blockIter_read (block : Block) (rd : Reader)
  : Reader * Block * (bool * option error) :=
  loop blockIter_read_body (fun block rd => (rd, block, (false, None)))
       block rd.

(** proto.go 44-47; called with [it.cn] not nil. *)
Definition close (db : Pool) (it : blockIter) : Pool * blockIter :=
  match cn it with
  | Some c =>
      (releaseConn db c (stickyErr it),
       {| cn := None; stickyErr := stickyErr it |})
  | None => (db, it)
  end.

(** proto.go 37-42 *)
Definition Close (db : Pool) (it : blockIter)
  : Pool * blockIter * option error :=
  match cn it with
  | Some _ => (close db it, None)
  | None => (db, it, None)
  end.

(** proto.go 49-51 *)
Definition Err (it : blockIter) : option error := stickyErr it.

(** proto.go 53-70 *)
Definition Next (db : Pool) (it : blockIter) (block : Block)
  : Pool * blockIter * Block * bool :=
  match cn it with
  | None => (db, it, block, false)
  | Some c =>
      let '(rd, block, (ok, err)) := blockIter_read block (cn_rd c) in
      let it := {| cn := Some (set_rd c rd); stickyErr := stickyErr it |} in
      match err with
      | Some err =>
          let it := {| cn := cn it; stickyErr := Some err |} in
          (close db it, block, false)
      | None =>
          if negb ok then (close db it, block, false)
          else (db, it, block, true)
      end
  end.

(** *** The handshake (proto.go 15-21, 108-142) *)

Definition clientName : string := "go-clickhouse".
Definition chVersionMajor : N := 19.
Definition chVersionMinor : N := 17.
Definition chVersionPatch : N := 5.
Definition chRevision : N := 54428.

(** A value of the [interface{}] that a setting holds, by its dynamic type;
    [VOther] stands for a value of any further type, with the name that
    [%T] prints for it. *)
Inductive value : Type :=
| VString (v : string)
| VInt (v : Z)
| VInt64 (v : Z)
| VUint64 (v : N)
| VBool (v : bool)
| VOther (typeName : string).

(** The fields of [db.cfg] that [proto.go] reads.  [QuerySettings] is a Go
    map; it is listed in the order in which [range] visits it. *)
Record Config : Type := {
  Database : string;
  User : string;
  Password : string;
  QuerySettings : list (string * value)
}.

Definition writeClientInfo (wr : Writer) : Writer :=
  let wr := wr_String clientName wr in
  let wr := wr_Uvarint chVersionMajor wr in
  let wr := wr_Uvarint chVersionMinor wr in
  wr_Uvarint chRevision wr.

(** Modelled from the spec: [Conn.WithWriter] is not part of the sources.
    The function writes into the connection's buffer, which is then
    flushed; a failed flush is the error of the call. *)
Definition WithWriter (c : Conn) (fn : Writer -> Writer)
  : Conn * option error :=
  match cn_flush c with
  | Some err => (c, Some err)
  | None =>
      ({| cn_rd := cn_rd c; cn_sent := cn_sent c ++ fn [];
          cn_flush := None; cn_ServerInfo := cn_ServerInfo c |},
       None)
  end.

(** Modelled from the spec: [Conn.WithReader] is not part of the sources.
    The function reads from the connection and its error is the error of
    the call. *)
Definition WithReader (c : Conn)
    (fn : Reader -> ServerInfo -> Reader * ServerInfo * option error)
  : Conn * option error :=
  let '(rd, srv, err) := fn (cn_rd c) (cn_ServerInfo c) in
  ({| cn_rd := rd; cn_sent := cn_sent c; cn_flush := cn_flush c;
      cn_ServerInfo := srv |},
   err).

Definition hello (cfg : Config) (c : Conn) : Conn * option error :=
  match
    WithWriter c (fun wr =>
      let wr := wr_Uvarint ClientHello wr in
      let wr := writeClientInfo wr in
      let wr := wr_String (Database cfg) wr in
      let wr := wr_String (User cfg) wr in
      wr_String (Password cfg) wr)
  with
  | (c, Some err) => (c, Some err)
  | (c, None) =>
    WithReader c (fun rd srv =>
      match rd_Uvarint rd with
      | (rd, Fail err) => (rd, srv, Some err)
      | (rd, Ok packet) =>
        if N.eqb packet ServerHello then ServerInfo_ReadFrom srv rd
        else if N.eqb packet ServerException then
          let '(rd, err) := readException rd in (rd, srv, err)
        else
          (rd, srv,
           Some (errorString
                   ("ch: hello: unexpected packet: "
                    ++ fmt.d packet)%string))
      end)
  end.

End Dispatch.

(** *** Settings (proto.go 269-289) *)

(** The loop over the settings.  The result is the writer as the loop
    leaves it and the value the loop panics with, if it does. *)
Fixpoint writeSettings_range (settings : list (string * value))
    (wr : Writer) : Writer * option error :=
  match settings with
  | [] => (wr, None)
  | (key, value) :: settings' =>
      let wr := wr_String key wr in
      match value with
      | VString value => writeSettings_range settings' (wr_String value wr)
      | VInt value =>
          writeSettings_range settings' (wr_Uvarint (uint64_of_int value) wr)
      | VInt64 value =>
          writeSettings_range settings' (wr_Uvarint (uint64_of_int value) wr)
      | VUint64 value => writeSettings_range settings' (wr_Uvarint value wr)
      | VBool value => writeSettings_range settings' (wr_Bool value wr)
      | VOther typeName =>
          (wr,
           Some (errorString
                   (key ++ " setting has unsupported type: " ++ typeName)
                   %string))
      end
  end.

Definition writeSettings (cfg : Config) (wr : Writer)
  : Writer * option error :=
  match writeSettings_range (QuerySettings cfg) wr with
  | (wr, Some panic) => (wr, Some panic)
  | (wr, None) => (wr_String "" wr, None)
  end.

(** The value kinds that [writeSettings] has a case for. *)
Definition supported (v : value) : bool :=
  match v with
  | VOther _ => false
  | _ => true
  end.

(** What one setting of a supported kind adds to the writer. *)
Definition setting_written (kv : string * value) : list written :=
  wString (fst kv)
  :: match snd kv with
     | VString v => [wString v]
     | VInt v => [wUvarint (uint64_of_int v)]
     | VInt64 v => [wUvarint (uint64_of_int v)]
     | VUint64 v => [wUvarint v]
     | VBool v => [wBool v]
     | VOther _ => []
     end.

Definition with_settings (cfg : Config) (settings : list (string * value))
  : Config :=
  {| Database := Database cfg; User := User cfg; Password := Password cfg;
     QuerySettings := settings |}.

(** *** The calls a caller makes on an iterator *)

Inductive call : Type :=
| callNext (block : Block)
| callClose.

Section Calls.
Context {opcodes : Opcodes}.

Definition do_call (st : Pool * blockIter) (c : call) : Pool * blockIter :=
  match c with
  | callNext block => fst (fst (Next (fst st) (snd st) block))
  | callClose => fst (Close (fst st) (snd st))
  end.

(** The pool and the iterator after a sequence of calls on a new
    iterator over the connection [c]. *)
Definition after (db : Pool) (c : Conn) (calls : list call)
  : Pool * blockIter :=
  fold_left do_call calls (db, newBlockIter c).

End Calls.

(** *** What the server sends, as the reader delivers it

    The scripts of well-formed payloads, used to state what the decoders
    return on them. *)

(** The fields of one exception on the wire. *)
Record ExceptionFields : Type := {
  wCode : Z;
  wName : string;
  wMessage : string;
  wStackTrace : string
}.

Definition exception_fields (x : ExceptionFields) (hasNested : bool)
  : Reader :=
  [Int32_ (wCode x); String_ (wName x); String_ (wMessage x);
   String_ (wStackTrace x); Bool_ hasNested].

(** An exception followed by its chain of causes: the has-nested flag is
    true once for every cause. *)
Fixpoint exception_payload (x : ExceptionFields)
    (chain : list ExceptionFields) : Reader :=
  match chain with
  | [] => exception_fields x false
  | cause :: chain' =>
      exception_fields x true ++ exception_payload cause chain'
  end.

(** The message that [readException] keeps. *)
Definition decoded_Message (x : ExceptionFields) : string :=
  strings.TrimSpace
    (strings.TrimPrefix (wMessage x) (wName x ++ ":")%string).

(** The [Error] values expected for a payload, linked through [nested]. *)
Fixpoint decoded (x : ExceptionFields) (chain : list ExceptionFields)
  : Error :=
  mkError (wCode x) (wName x) (decoded_Message x) (wStackTrace x)
    match chain with
    | [] => None
    | cause :: chain' => Some (ErrorRef (decoded cause chain'))
    end.

(** The causes expected below the outermost exception, in wire order. *)
Fixpoint decoded_causes (chain : list ExceptionFields) : list error :=
  match chain with
  | [] => []
  | cause :: chain' => ErrorRef (decoded cause chain') :: decoded_causes chain'
  end.

(** The packets that the server interleaves before the end of a stream. *)
Record BlockInfo : Type := {
  field1 : N;
  isOverflows : bool;
  field2 : N;
  bucketNum : Z;
  field0 : N
}.

Record ColumnData : Type := {
  wColName : string;
  wColType : string;
  wColValues : list string
}.

(** The column that a block holds once the codec has read its values. *)
Definition column_of (c : ColumnData) : Column :=
  {| colName := wColName c; colType := wColType c;
     colValues := wColValues c |}.

Inductive packet : Type :=
| Data (tableName : string) (info : BlockInfo) (numRow : N)
       (columns : list ColumnData)
| Progress (rows bytes totalRows writtenRows writtenBytes : N)
| ProfileInfo (rows blocks bytes : N) (appliedLimit : bool)
              (rowsBeforeLimit : N) (calculated : bool)
| TableColumns (tableName description : string).

Definition column_payload (c : ColumnData) : Reader :=
  [String_ (wColName c); String_ (wColType c); Column_ (wColValues c)].

Definition block_payload (tableName : string) (info : BlockInfo)
    (numRow : N) (columns : list ColumnData) : Reader :=
  [String_ tableName;
   Uvarint_ (field1 info); Bool_ (isOverflows info);
   Uvarint_ (field2 info); Int32_ (bucketNum info);
   Uvarint_ (field0 info);
   Uvarint_ (N.of_nat (List.length columns)); Uvarint_ numRow]
  ++ flat_map column_payload columns.

(** A data packet is well formed when its columns are named and typed and
    their number fits an [int]. *)
Definition well_formed (p : packet) : Prop :=
  match p with
  | Data _ _ _ columns =>
      (Z.of_nat (List.length columns) < 2 ^ 63)%Z
      /\ Forall (fun c => wColName c <> ""%string
                          /\ wColType c <> ""%string) columns
  | _ => True
  end.

(** The row count of a packet; only data packets have rows. *)
Definition rows_of (p : packet) : N :=
  match p with
  | Data _ _ numRow _ => numRow
  | _ => 0%N
  end.

Definition is_Data (p : packet) : bool :=
  match p with
  | Data _ _ _ _ => true
  | _ => false
  end.

Definition total_rows (ps : list packet) : N :=
  fold_right (fun p n => (rows_of p + n)%N) 0%N ps.

Section Wire.
Context {opcodes : Opcodes}.

Definition packet_payload (p : packet) : Reader :=
  match p with
  | Data tableName info numRow columns =>
      Uvarint_ ServerData :: block_payload tableName info numRow columns
  | Progress a b c d e =>
      [Uvarint_ ServerProgress;
       Uvarint_ a; Uvarint_ b; Uvarint_ c; Uvarint_ d; Uvarint_ e]
  | ProfileInfo a b c d e f =>
      [Uvarint_ ServerProfileInfo;
       Uvarint_ a; Uvarint_ b; Uvarint_ c; Bool_ d; Uvarint_ e; Bool_ f]
  | TableColumns a b =>
      [Uvarint_ ServerTableColumns; String_ a; String_ b]
  end.

Definition stream_payload (ps : list packet) : Reader :=
  flat_map packet_payload ps.

(** The opcodes that the server may send. *)
Definition server_vocabulary : list N :=
  [ServerHello; ServerData; ServerException; ServerProgress; ServerPong;
   ServerEndOfStream; ServerProfileInfo; ServerTableColumns].

End Wire.

(** The text of the error for an opcode that a loop does not handle. *)
Definition unexpected_packet (fn : string) (packet : N) : error :=
  errorString
    ("ch: " ++ fn ++ ": unexpected packet: " ++ fmt.d packet)%string.

(** The [res] of [readDataBlocks] after the packets [ps], entered with
    [res]: every data packet adds its row count as an [int]. *)
Fixpoint affected_after (res : option result) (ps : list packet)
  : option result :=
  match ps with
  | [] => res
  | p :: ps' =>
      affected_after
        (if is_Data p then
           Some {| affected :=
                     add_int
                       match res with
                       | None => 0%Z
                       | Some r => affected r
                       end
                       (int_of_uint64 (rows_of p)) |}
         else res)
        ps'
  end.

(** The [Result] expected once the stream has ended: none when the loop
    was entered without one and saw no data packet, else one that counts
    the rows of all data packets on top of what the loop was entered
    with. *)
Definition accumulated (res : option result) (ps : list packet)
  : option result :=
  match res, existsb is_Data ps with
  | None, false => None
  | None, true => Some {| affected := Z.of_N (total_rows ps) |}
  | Some r, _ => Some {| affected := affected r + Z.of_N (total_rows ps) |}
  end.

(** *** The query request (proto.go 240-267) *)

(** The constants of [chproto] that the query request uses; they are not
    part of the sources and are taken as parameters. *)
Class QueryConstants : Type := {
  ClientQuery : N;
  QueryInitial : N;
  CompressionEnabled : N
}.

(** [writeQuery] with the package variable [hostname] passed in and
    returned.  [os_Hostname] is the name that [os.Hostname()] returns, empty
    when it fails.  The last component is the value the call panics with,
    if [writeSettings] does. *)
Definition writeQuery {consts : QueryConstants} (os_Hostname : string)
    (hostname : string) (cfg : Config) (wr : Writer) (query : string)
  : string * Writer * option error :=
  let hostname :=
    if String.eqb hostname "" then os_Hostname else hostname in
  let wr := wr_Uvarint ClientQuery wr in
  let wr := wr_String "" wr in
  let wr := wr_Uvarint QueryInitial wr in
  let wr := wr_String "" wr in
  let wr := wr_String "" wr in
  let wr := wr_String "[::ffff:127.0.0.1]:0" wr in
  let wr := wr_Uvarint 1 wr in
  let wr := wr_String hostname wr in
  let wr := wr_String hostname wr in
  let wr := writeClientInfo wr in
  let wr := wr_String "" wr in
  let wr := wr_Uvarint chVersionPatch wr in
  match writeSettings cfg wr with
  | (wr, Some panic) => (hostname, wr, Some panic)
  | (wr, None) =>
      let wr := wr_Uvarint 2 wr in
      let wr := wr_Uvarint CompressionEnabled wr in
      let wr := wr_String query wr in
      (hostname, wr, None)
  end.

(** What [writeQuery] writes before the settings, for a host name. *)
Definition query_header {consts : QueryConstants} (hostname : string)
  : list written :=
  [wUvarint ClientQuery; wString ""; wUvarint QueryInitial; wString "";
   wString ""; wString "[::ffff:127.0.0.1]:0"; wUvarint 1;
   wString hostname; wString hostname; wString clientName;
   wUvarint chVersionMajor; wUvarint chVersionMinor; wUvarint chRevision;
   wString ""; wUvarint chVersionPatch].

(** A signed setting seen as the unsigned value that is written for it. *)
Definition as_uint64 (v : value) : value :=
  match v with
  | VInt v => VUint64 (uint64_of_int v)
  | VInt64 v => VUint64 (uint64_of_int v)
  | v => v
  end.

Definition is_TableColumns (p : packet) : bool :=
  match p with
  | TableColumns _ _ => true
  | _ => false
  end.

(** An integer brought into the range of [int] as two's complement on 64
    bits does. *)
Definition wrap_int (z : Z) : Z := ((z + 2 ^ 63) mod 2 ^ 64 - 2 ^ 63)%Z.

(** The row counts of the packets as [readBlock] stores them, summed. *)
Definition total_int (ps : list packet) : Z :=
  fold_right (fun p z => (int_of_uint64 (rows_of p) + z)%Z) 0%Z ps.

(** Every message along the chain of causes of an error is free of
    white space at both ends. *)
Fixpoint trimmed_chain (e : error) : Prop :=
  match e with
  | ErrorRef (mkError _ _ message _ cause) =>
      strings.startsWithSpace message = false
      /\ strings.endsWithSpace message = false
      /\ match cause with
         | Some e' => trimmed_chain e'
         | None => True
         end
  | _ => True
  end.

(** *** Payloads for the worked examples *)

(** The block info that the client itself writes (proto.go 306-314). *)
Definition info : BlockInfo :=
  {| field1 := 1; isOverflows := false; field2 := 2; bucketNum := (-1);
     field0 := 0 |}.

(** A data packet of one column and ten rows. *)
Definition ten_rows : packet :=
  Data "" info 10
       [{| wColName := "n"; wColType := "UInt8";
           wColValues := ["0"; "1"; "2"; "3"; "4"; "5"; "6"; "7"; "8"; "9"]
           %string |}].

(** A fresh connection over what the server sends. *)
Definition conn (rd : Reader) : Conn :=
  {| cn_rd := rd; cn_sent := []; cn_flush := None;
     cn_ServerInfo :=
       {| srvName := ""; MajorVer := 0; MinorVer := 0; Revision := 0 |} |}.

Definition missing_table : ExceptionFields :=
  {| wCode := 60; wName := "DB::Exception";
     wMessage := "DB::Exception: Table default.t doesn't exist";
     wStackTrace := "" |}.

(** The constants of ClickHouse's protocol for the query request. *)
Definition clickhouse_query : QueryConstants :=
  {| ClientQuery := 1; QueryInitial := 1; CompressionEnabled := 1 |}.

Definition one_column : ColumnData :=
  {| wColName := "id"; wColType := "UInt64"; wColValues := ["7"%string] |}.

End ch.

(* ------------------------------------------------------------------------- *)
(** ** Package [chmigrate] *)

Module chmigrate.

(** *** Errors *)

(** An [error] of the migration runner: one that the database or a
    migration function returned, known by the text of its [Error()], or one
    that [fmt.Errorf] built around another with the verb [%w]. *)
Inductive error : Type :=
| dbError (text : string)
| wrapError (before : string) (err : error) (after : string).

(** [err.Error()]. *)
Fixpoint Error (e : error) : string :=
  match e with
  | dbError text => text
  | wrapError before err after => (before ++ Error err ++ after)%string
  end.

(** [errors.Unwrap]. *)
Definition Unwrap (e : error) : option error :=
  match e with
  | dbError _ => None
  | wrapError _ err _ => Some err
  end.

(** *** The database as the runner sees it *)

(** A row of a metadata table: the table, then the columns [name],
    [group_id] and [sign].  [migrated_at] is the wall-clock time of the
    insert and is left out. *)
Record Row : Type := {
  row_table : string;
  row_name : string;
  row_group_id : Z;
  row_sign : Z
}.

(** Modelled from the spec: [ch.DB] with its query builders is not part of
    the sources.  The runner inserts rows into the migrations table and
    executes DDL statements; the model keeps the rows inserted so far and
    takes as given which inserts and which statements the database
    fails. *)
Record DB : Type := {
  inserted : list Row;
  insertErr : Row -> option error;
  execErr : string -> list string -> option error
}.

(** [db.NewInsert().Model(row).ModelTableExpr(table).Exec(ctx)]. *)
Definition Insert (db : DB) (row : Row) : DB * option error :=
  match insertErr db row with
  | Some err => (db, Some err)
  | None =>
      ({| inserted := inserted db ++ [row];
          insertErr := insertErr db;
          execErr := execErr db |},
       None)
  end.

(** [db.ExecContext(ctx, query, args...)], for its error. *)
Definition ExecContext (db : DB) (query : string) (args : list string)
  : option error :=
  execErr db query args.

(** *** Migrations *)

(** [MigrationFunc]: a function of the database that may fail. *)
Definition MigrationFunc : Type := DB -> DB * option error.

(** The fields of [Migration] that the runner touches; [Up] and [Down]
    may be [nil]. *)
Record Migration : Type := {
  Name : string;
  GroupID : Z;
  Sign : Z;
  Up : option MigrationFunc;
  Down : option MigrationFunc
}.

Definition set_GroupID (migration : Migration) (id : Z) : Migration :=
  {| Name := Name migration; GroupID := id; Sign := Sign migration;
     Up := Up migration; Down := Down migration |}.

Definition set_Sign (migration : Migration) (sign : Z) : Migration :=
  {| Name := Name migration; GroupID := GroupID migration; Sign := sign;
     Up := Up migration; Down := Down migration |}.

Record Migrator : Type := {
  table : string;
  locksTable : string;
  applyOnSuccess : bool
}.

(** part_000 49-63, without options. *)
Definition NewMigrator : Migrator :=
  {| table := "ch_migrations"; locksTable := "ch_migration_locks";
     applyOnSuccess := false |}.

(** part_000 32-36 *)
Definition WithApplyOnSuccess (m : Migrator) : Migrator :=
  {| table := table m; locksTable := locksTable m; applyOnSuccess := true |}.

Definition row_of (m : Migrator) (migration : Migration) : Row :=
  {| row_table := table m; row_name := Name migration;
     row_group_id := GroupID migration; row_sign := Sign migration |}.

(** part_000 322-331 *)
Definition MarkApplied (m : Migrator) (db : DB) (migration : Migration)
  : DB * Migration * option error :=
  let migration := set_Sign migration 1 in
  let '(db, err) := Insert db (row_of m migration) in
  (db, migration, err).

(** part_000 333-341 *)
Definition MarkUnapplied (m : Migrator) (db : DB) (migration : Migration)
  : DB * Migration * option error :=
  let migration := set_Sign migration (-1) in
  let '(db, err) := Insert db (row_of m migration) in
  (db, migration, err).

Definition is_nil {A} (v : option A) : bool :=
  match v with
  | None => true
  | Some _ => false
  end.

(** How a call ends: it returns, or it panics (a [nil] function is
    called). *)
Inductive outcome (A : Type) : Type :=
| Returns (v : A)
| Panics.
Arguments Returns {A} v.
Arguments Panics {A}.

(** *** Migrate, the loop over the group (part_000 157-180)

    [done] are the migrations of the group before index [i], as the loop
    left them, and [todo] those from [i] on.  [nop] is [cfg.nop].  The
    result is the group's migrations and the error returned with them. *)
Fixpoint Migrate_range (m : Migrator) (nop : bool) (groupID : Z)
    (db : DB) (done todo : list Migration)
  : DB * outcome (list Migration * option error) :=
  match todo with
  | [] => (db, Returns (done, None))
  | migration :: rest =>
      let migration := set_GroupID migration groupID in
      let mark (db : DB) (err : option error) :=
        let '(db, migration, applyErr) := MarkApplied m db migration in
        if negb (is_nil err) then
          (db, Returns (done ++ migration :: rest, applyErr))
        else if negb (is_nil err) then
          (db, Returns (done ++ migration :: rest, err))
        else
          Migrate_range m nop groupID db (done ++ [migration]) rest in
      if negb nop || negb (is_nil (Up migration)) then
        match Up migration with
        | None => (db, Panics)
        | Some up =>
            let '(db, err) := up db in
            if negb (is_nil err) && applyOnSuccess m then
              (db, Returns (done ++ migration :: rest, err))
            else mark db err
        end
      else mark db None
  end.

(** The loop on a group with the identifier [groupID]. *)
Definition Migrate_group (m : Migrator) (nop : bool) (groupID : Z)
    (db : DB) (migrations : list Migration)
  : DB * outcome (list Migration * option error) :=
  Migrate_range m nop groupID db [] migrations.

(** *** Rollback, the loop over the last group (part_000 202-224)

    The loop runs from the last index down: [todo] are the migrations at
    the indices [i], [i-1], ..., [0] in that order, and [done] those after
    index [i] as the loop left them. *)
Fixpoint Rollback_range (m : Migrator) (nop : bool)
    (db : DB) (todo done : list Migration)
  : DB * (list Migration * option error) :=
  match todo with
  | [] => (db, (done, None))
  | migration :: rest =>
      let mark (db : DB) (err : option error) :=
        let '(db, migration, unapplyErr) := MarkUnapplied m db migration in
        if negb (is_nil err) then
          (db, (rev rest ++ migration :: done, unapplyErr))
        else if negb (is_nil err) then
          (db, (rev rest ++ migration :: done, err))
        else
          Rollback_range m nop db rest (migration :: done) in
      if negb nop && negb (is_nil (Down migration)) then
        match Down migration with
        | None => mark db None
        | Some down =>
            let '(db, err) := down db in
            if negb (is_nil err) && applyOnSuccess m then
              (db, (rev rest ++ migration :: done, err))
            else mark db err
        end
      else mark db None
  end.

Definition Rollback_group (m : Migrator) (nop : bool)
    (db : DB) (migrations : list Migration)
  : DB * (list Migration * option error) :=
  Rollback_range m nop db (rev migrations) [].

(** *** The lock (part_000 374-394) *)

Definition Lock (m : Migrator) (db : DB) : option error :=
  match
    ExecContext db "ALTER TABLE ? ADD COLUMN ? Int8" [locksTable m; "lock"%string]
  with
  | Some err =>
      Some (wrapError "chmigrate: migrations table is already locked ("
                      err ")")
  | None => None
  end.

Definition Unlock (m : Migrator) (db : DB) : option error :=
  match
    ExecContext db "ALTER TABLE ? DROP COLUMN ?" [locksTable m; "lock"%string]
  with
  | Some err =>
      if negb (strings.Contains (Error err) "Cannot find column") then
        Some (wrapError "chmigrate: migrations table is already unlocked ("
                        err ")")
      else None
  | None => None
  end.

(** *** Databases and migrations for the worked examples *)

(** A database that accepts every insert and every statement. *)
Definition accepting : DB :=
  {| inserted := []; insertErr := fun _ => None;
     execErr := fun _ _ => None |}.

(** A database whose locks table has the lock column, or has not: adding
    the column, or dropping it, is refused with ClickHouse's message. *)
Definition lock_column (present : bool) : DB :=
  {| inserted := [];
     insertErr := fun _ => None;
     execErr := fun query _ =>
       if String.eqb query "ALTER TABLE ? ADD COLUMN ? Int8" then
         if present then
           Some (dbError
                   "DB::Exception: Cannot add column lock: column with this name already exists")
         else None
       else
         if present then None
         else
           Some (dbError
                   "DB::Exception: Wrong column name. Cannot find column `lock` to drop") |}.

Definition succeeds : MigrationFunc := fun db => (db, None).
Definition fails : MigrationFunc := fun db => (db, Some (dbError "boom")).

Definition migration (name : string) (up down : MigrationFunc) : Migration :=
  {| Name := name; GroupID := 0; Sign := 0;
     Up := Some up; Down := Some down |}.

(** *** Migrate and Rollback as a whole (part_000 131-225, 361-366) *)

Record MigrationGroup : Type := {
  ID : Z;
  Migrations : list Migration
}.

(** The database together with the statements that the runner has
    executed through [ExecContext], oldest first. *)
Record Session : Type := {
  ses_db : DB;
  executed : list string
}.

Definition set_db (s : Session) (db : DB) : Session :=
  {| ses_db := db; executed := executed s |}.

Definition logged (s : Session) (query : string) : Session :=
  {| ses_db := ses_db s; executed := executed s ++ [query] |}.

(** part_000 361-366; [ms] is the field [m.ms].  The value of
    [errors.New] is an error known by its text. *)
Definition validate (ms : list Migration) : option error :=
  match ms with
  | [] => Some (dbError "chmigrate: there are no any migrations")
  | _ :: _ => None
  end.

(** [Lock] and [Unlock], with the statement they execute logged. *)
Definition Lock_in (m : Migrator) (s : Session) : Session * option error :=
  (logged s "ALTER TABLE ? ADD COLUMN ? Int8", Lock m (ses_db s)).

Definition Unlock_in (m : Migrator) (s : Session)
  : Session * option error :=
  (logged s "ALTER TABLE ? DROP COLUMN ?", Unlock m (ses_db s)).

(** part_000 131-181.  [migrationsWithStatus] stands for the result of the
    method of that name on the database as it is, and [Unapplied] for
    [MigrationSlice.Unapplied]; [MigrationSlice] is not part of the
    sources.  The deferred [Unlock] runs on every way out once [Lock] has
    succeeded, a panic included, and its error is dropped. *)
Definition Migrate (m : Migrator) (ms : list Migration) (nop : bool)
    (migrationsWithStatus : DB -> list Migration * Z * option error)
    (Unapplied : list Migration -> list Migration) (s : Session)
  : Session * outcome (option MigrationGroup * option error) :=
  match validate ms with
  | Some err => (s, Returns (None, Some err))
  | None =>
  match Lock_in m s with
  | (s, Some err) => (s, Returns (None, Some err))
  | (s, None) =>
    let '(s, out) :=
      match migrationsWithStatus (ses_db s) with
      | (_, _, Some err) => (s, Returns (None, Some err))
      | (migrations, lastGroupID, None) =>
          match Unapplied migrations with
          | [] =>
              (s, Returns (Some {| ID := 0; Migrations := [] |}, None))
          | unapplied =>
              let id := (lastGroupID + 1)%Z in
              match Migrate_group m nop id (ses_db s) unapplied with
              | (db, Returns (migrations, err)) =>
                  (set_db s db,
                   Returns (Some {| ID := id; Migrations := migrations |},
                            err))
              | (db, Panics) => (set_db s db, Panics)
              end
          end
      end in
    let '(s, _) := Unlock_in m s in
    (s, out)
  end end.

(** part_000 183-225.  [MigrationsWithStatus] stands for the result of the
    method of that name and [LastGroup] for [MigrationSlice.LastGroup]. *)
Definition Rollback (m : Migrator) (ms : list Migration) (nop : bool)
    (MigrationsWithStatus : DB -> list Migration * option error)
    (LastGroup : list Migration -> MigrationGroup) (s : Session)
  : Session * (option MigrationGroup * option error) :=
  match validate ms with
  | Some err => (s, (None, Some err))
  | None =>
  match Lock_in m s with
  | (s, Some err) => (s, (None, Some err))
  | (s, None) =>
    let '(s, out) :=
      match MigrationsWithStatus (ses_db s) with
      | (_, Some err) => (s, (None, Some err))
      | (migrations, None) =>
          let lastGroup := LastGroup migrations in
          let '(db, (migrations, err)) :=
            Rollback_group m nop (ses_db s) (Migrations lastGroup) in
          (set_db s db,
           (Some {| ID := ID lastGroup; Migrations := migrations |}, err))
      end in
    let '(s, _) := Unlock_in m s in
    (s, out)
  end end.

(** A migration as [MarkApplied], or [MarkUnapplied], leaves it. *)
Definition applied_in (groupID : Z) (migration : Migration) : Migration :=
  set_Sign (set_GroupID migration groupID) 1.

Definition unapplied (migration : Migration) : Migration :=
  set_Sign migration (-1).

Definition with_inserted (db : DB) (rows : list Row) : DB :=
  {| inserted := inserted db ++ rows; insertErr := insertErr db;
     execErr := execErr db |}.

(** A migration function that succeeds and leaves the rows of the
    metadata tables alone. *)
Definition quiet (f : option MigrationFunc) : Prop :=
  match f with
  | None => True
  | Some f => forall db, f db = (db, None)
  end.

(** *** Migration names and files (part_000 239-320) *)

(** A byte of the class [[0-9a-z_\-]]. *)
Definition allowed (c : ascii) : bool :=
  let n := nat_of_ascii c in
  (Nat.leb 48 n && Nat.leb n 57) || (Nat.leb 97 n && Nat.leb n 122)
  || Nat.eqb n 95 || Nat.eqb n 45.

Fixpoint all_allowed (s : string) : bool :=
  match s with
  | EmptyString => true
  | String c s' => allowed c && all_allowed s'
  end.

(** [nameRE.MatchString] for the expression [^[0-9a-z_\-]+$]: the whole
    text, which is not empty, is made of allowed bytes. *)
Definition nameRE_MatchString (name : string) : bool :=
  negb (String.eqb name "") && all_allowed name.

Section Files.

(** The time of the call in the layout [20060102150405], the verb [%q] of
    package [fmt], [filepath.Join], the directory of the migrations and the
    two templates: the standard library and the parts of the package that
    are not in the sources, taken as parameters. *)
Variable version : string.
Variable quote : string -> string.
Variable Join : string -> string -> string.
Variable directory : string.
Variable goTemplate : string.
Variable sqlTemplate : string.

(** part_000 308-320 *)
Definition genMigrationName (name : string) : string * option error :=
  if String.eqb name "" then
    (""%string, Some (dbError "chmigrate: migration name can't be empty"))
  else if negb (nameRE_MatchString name) then
    (""%string,
     Some (dbError ("chmigrate: invalid migration name: " ++ quote name)))
  else
    ((version ++ "_" ++ name)%string, None).

(** The files written so far, oldest first, and the paths that cannot be
    written. *)
Record FS : Type := {
  written_files : list (string * string);
  writeErr : string -> option error
}.

(** [ioutil.WriteFile(path, content, 0o644)]. *)
Definition WriteFile (fs : FS) (path content : string)
  : FS * option error :=
  match writeErr fs path with
  | Some err => (fs, Some err)
  | None =>
      ({| written_files := written_files fs ++ [(path, content)];
          writeErr := writeErr fs |},
       None)
  end.

Record MigrationFile : Type := {
  file_Name : string;
  file_Path : string;
  file_Content : string
}.

(** part_000 291-304 *)
Definition createSQL (fs : FS) (fname : string)
  : FS * (option MigrationFile * option error) :=
  let fpath := Join directory fname in
  match WriteFile fs fpath sqlTemplate with
  | (fs, Some err) => (fs, (None, Some err))
  | (fs, None) =>
      (fs,
       (Some {| file_Name := fname; file_Path := fpath;
                file_Content := goTemplate |},
        None))
  end.

(** part_000 271-289 *)
Definition CreateSQLMigrations (fs : FS) (name : string)
  : FS * (option (list MigrationFile) * option error) :=
  match genMigrationName name with
  | (_, Some err) => (fs, (None, Some err))
  | (name, None) =>
  match createSQL fs (name ++ ".up.sql") with
  | (fs, (_, Some err)) => (fs, (None, Some err))
  | (fs, (None, None)) => (fs, (None, None))
  | (fs, (Some up, None)) =>
  match createSQL fs (name ++ ".down.sql") with
  | (fs, (_, Some err)) => (fs, (None, Some err))
  | (fs, (None, None)) => (fs, (None, None))
  | (fs, (Some down, None)) => (fs, (Some [up; down], None))
  end end end.

End Files.

(** *** The status of the migrations (part_000 75-93, 396-403) *)

(** A database that refuses every insert. *)
Definition read_only : DB :=
  {| inserted := []; insertErr := fun _ => Some (dbError "read-only");
     execErr := fun _ _ => None |}.

(** A file system on which every path can be written. *)
Definition empty_fs : FS :=
  {| written_files := []; writeErr := fun _ => None |}.

Module status.

(** The fields of [Migration] that the status reads and writes;
    [MigratedAt] is a time, as a number. *)
Record Migration : Type := {
  Name : string;
  GroupID : Z;
  MigratedAt : Z
}.

(** A Go [map[string]*Migration]: the bindings, the newest first; a key
    bound again hides its older binding. *)
Definition Map : Type := list (string * Migration).

Definition map_set (mp : Map) (key : string) (v : Migration) : Map :=
  (key, v) :: mp.

Fixpoint map_get (mp : Map) (key : string) : option Migration :=
  match mp with
  | [] => None
  | (k, v) :: mp' => if String.eqb k key then Some v else map_get mp' key
  end.

(** part_000 396-403 *)
Definition migrationMap (ms : list Migration) : Map :=
  fold_left (fun mp m => map_set mp (Name m) m) ms [].

(** part_000 75-93.  [sorted] is [m.migrations.Sorted()], [selected] the
    result of [selectAppliedMigrations] and [LastGroupID] the method of
    [MigrationSlice]. *)
Definition migrationsWithStatus (sorted : list Migration)
    (selected : list Migration * option error)
    (LastGroupID : list Migration -> Z)
  : option (list Migration) * Z * option error :=
  match selected with
  | (_, Some err) => (None, 0%Z, Some err)
  | (applied, None) =>
      let appliedMap := migrationMap applied in
      let sorted :=
        map (fun m1 =>
               match map_get appliedMap (Name m1) with
               | Some m2 =>
                   {| Name := Name m1; GroupID := GroupID m2;
                      MigratedAt := MigratedAt m2 |}
               | None => m1
               end)
            sorted in
      (Some sorted, LastGroupID applied, None)
  end.

(** The last of the applied migrations that has the name [name]. *)
Definition last_applied (applied : list Migration) (name : string)
  : option Migration :=
  find (fun m2 => String.eqb (Name m2) name) (rev applied).

End status.

End chmigrate.

(* ------------------------------------------------------------------------- *)
(** ** Facts about the strings functions *)

Section StringFacts.
Import strings.

Lemma HasPrefix_app (p s : string) : HasPrefix (p ++ s) p = true.
Proof.
  induction p as [|c p IH]; simpl; [reflexivity|].
  now rewrite Ascii.eqb_refl, IH.
Qed.

Lemma Contains_self_app (p s : string) : Contains (p ++ s) p = true.
Proof.
  destruct p; simpl.
  - destruct s; reflexivity.
  - now rewrite Ascii.eqb_refl, HasPrefix_app.
Qed.

Lemma Contains_skip (a s sub : string) :
  Contains s sub = true -> Contains (a ++ s) sub = true.
Proof.
  intros H. induction a as [|x a IH]; simpl; [exact H|].
  rewrite IH. apply orb_true_r.
Qed.

(** A string contains each of its segments. *)
Lemma Contains_app (a b c : string) : Contains (a ++ b ++ c) b = true.
Proof. apply Contains_skip, Contains_self_app. Qed.

Lemma Contains_app_r (a b : string) : Contains (a ++ b) b = true.
Proof.
  replace b with (b ++ "")%string at 1.
  - apply Contains_app.
  - induction b; simpl; congruence.
Qed.

Lemma starts_trim two three n :
  forall l, List.length l <= n -> starts two three (trim two three l) = false.
Proof.
  induction n as [|n IH]; intros l Hlen.
  - destruct l; [reflexivity|cbn in Hlen; lia].
  - destruct l as [|c l1]; [reflexivity|]. cbn [trim].
    destruct (isSpace c) eqn:Hc; [apply IH; cbn in Hlen; lia|].
    destruct l1 as [|d l2]; [cbn; rewrite Hc; reflexivity|].
    destruct (two c d) eqn:H2; [apply IH; cbn in Hlen; lia|].
    destruct l2 as [|e l3]; [cbn; rewrite Hc, H2; reflexivity|].
    destruct (three c d e) eqn:H3; [apply IH; cbn in Hlen; lia|].
    cbn. rewrite Hc, H2, H3. reflexivity.
Qed.

Lemma trim_suffix two three n :
  forall l, List.length l <= n -> exists p, l = p ++ trim two three l.
Proof.
  induction n as [|n IH]; intros l Hlen.
  - destruct l; [exists []; reflexivity|cbn in Hlen; lia].
  - destruct l as [|c l1]; [exists []; reflexivity|]. cbn [trim].
    destruct (isSpace c).
    { destruct (IH l1) as [p Hp]; [cbn in Hlen; lia|].
      exists (c :: p). cbn. rewrite <- Hp. reflexivity. }
    destruct l1 as [|d l2]; [exists []; reflexivity|].
    destruct (two c d).
    { destruct (IH l2) as [p Hp]; [cbn in Hlen; lia|].
      exists (c :: d :: p). cbn. rewrite <- Hp. reflexivity. }
    destruct l2 as [|e l3]; [exists []; reflexivity|].
    destruct (three c d e).
    { destruct (IH l3) as [p Hp]; [cbn in Hlen; lia|].
      exists (c :: d :: e :: p). cbn. rewrite <- Hp. reflexivity. }
    exists []. reflexivity.
Qed.

(** A text that starts with white space still does when it goes on. *)
Lemma starts_app two three p q :
  starts two three p = true -> starts two three (p ++ q) = true.
Proof.
  destruct p as [|c [|d [|e p]]]; cbn; intros H.
  - discriminate.
  - rewrite orb_false_r in H. rewrite H. reflexivity.
  - rewrite orb_false_r in H.
    destruct (isSpace c); [reflexivity|]. cbn in *. rewrite H. reflexivity.
  - exact H.
Qed.

Lemma TrimLeft_starts (s : string) : startsWithSpace (TrimLeft s) = false.
Proof.
  unfold startsWithSpace, TrimLeft.
  rewrite list_ascii_of_string_of_list_ascii.
  apply (starts_trim _ _ (List.length (list_ascii_of_string s))). lia.
Qed.

Lemma TrimRight_starts (s : string) :
  startsWithSpace s = false -> startsWithSpace (TrimRight s) = false.
Proof.
  unfold startsWithSpace, TrimRight. intros Hs.
  rewrite list_ascii_of_string_of_list_ascii.
  set (l := list_ascii_of_string s) in *.
  destruct (trim_suffix (fun d c => space2 c d) (fun e d c => space3 c d e)
              (List.length (rev l)) (rev l)) as [p Hp]; [lia|].
  apply (f_equal (@rev ascii)) in Hp.
  rewrite rev_involutive, rev_app_distr in Hp.
  destruct (starts space2 space3
              (rev (trim (fun d c => space2 c d)
                         (fun e d c => space3 c d e) (rev l)))) eqn:E;
    [|reflexivity].
  apply (starts_app _ _ _ (rev p)) in E. rewrite <- Hp, Hs in E.
  discriminate.
Qed.

Lemma TrimRight_ends (s : string) : endsWithSpace (TrimRight s) = false.
Proof.
  unfold endsWithSpace, TrimRight.
  rewrite list_ascii_of_string_of_list_ascii, rev_involutive.
  apply (starts_trim _ _
           (List.length (rev (list_ascii_of_string s)))). lia.
Qed.

Lemma TrimSpace_trimmed (s : string) :
  startsWithSpace (TrimSpace s) = false
  /\ endsWithSpace (TrimSpace s) = false.
Proof.
  unfold TrimSpace. split.
  - apply TrimRight_starts, TrimLeft_starts.
  - apply TrimRight_ends.
Qed.

End StringFacts.

(* ------------------------------------------------------------------------- *)
(** ** Reading consumes the script *)

Section ReaderFacts.
Import ch.

Ltac script_cases rd := destruct rd as [|[] ?]; simpl; intros; try lia.

Lemma rd_Uvarint_shrinks : shrinks rd_Uvarint.
Proof. intros rd. script_cases rd. Qed.
Lemma rd_String_shrinks : shrinks rd_String.
Proof. intros rd. script_cases rd. Qed.
Lemma rd_Bool_shrinks : shrinks rd_Bool.
Proof. intros rd. script_cases rd. Qed.
Lemma rd_Int32_shrinks : shrinks rd_Int32.
Proof. intros rd. script_cases rd. Qed.

Ltac script_ok rd :=
  destruct rd as [|[] ?]; simpl; intros ? ? E; inversion E; subst; simpl; lia.

Lemma rd_Uvarint_consumes : consumes rd_Uvarint.
Proof. intros rd. script_ok rd. Qed.
Lemma rd_String_consumes : consumes rd_String.
Proof. intros rd. script_ok rd. Qed.
Lemma rd_Bool_consumes : consumes rd_Bool.
Proof. intros rd. script_ok rd. Qed.
Lemma rd_Int32_consumes : consumes rd_Int32.
Proof. intros rd. script_ok rd. Qed.

Lemma Column_ReadFrom_shrinks rd numRow :
  List.length (fst (Column_ReadFrom rd numRow)) <= List.length rd.
Proof. script_cases rd. Qed.

Lemma mret_shrinks {A} (v : A) : shrinks (mret v).
Proof. intros rd. simpl. lia. Qed.

Lemma mbind_shrinks {A B} (m : M A) (k : A -> M B) :
  shrinks m -> (forall v, shrinks (k v)) -> shrinks (mbind m k).
Proof.
  intros Hm Hk rd. unfold mbind.
  specialize (Hm rd). destruct (m rd) as [rd' [v|err]]; simpl in *.
  - specialize (Hk v rd'). lia.
  - exact Hm.
Qed.

Ltac shrinks_tac :=
  repeat first
    [ apply mret_shrinks
    | apply rd_Uvarint_shrinks | apply rd_String_shrinks
    | apply rd_Bool_shrinks | apply rd_Int32_shrinks
    | apply mbind_shrinks; [|intros ?] ].

Lemma readProfileInfo_shrinks : shrinks readProfileInfo.
Proof. unfold readProfileInfo. shrinks_tac. Qed.
Lemma readProgress_shrinks : shrinks readProgress.
Proof. unfold readProgress. shrinks_tac. Qed.
Lemma readServerTableColumns_shrinks : shrinks readServerTableColumns.
Proof. unfold readServerTableColumns. shrinks_tac. Qed.
Lemma readBlockInfo_shrinks : shrinks readBlockInfo.
Proof. unfold readBlockInfo. shrinks_tac. Qed.

(** The rounds of a loop beyond the length of the script change nothing,
    provided a round calls [self] on shorter scripts only. *)
Lemma iter_stable {St Res} (body : (St -> Reader -> Res) -> _) stuck :
  local body ->
  forall n m st rd,
    List.length rd < n -> List.length rd < m ->
    iter body stuck n st rd = iter body stuck m st rd.
Proof.
  intros Hloc. induction n as [|n IH]; intros m st rd Hn Hm; [lia|].
  destruct m as [|m]; [lia|]. simpl.
  apply Hloc. intros st' rd' Hlt. apply IH; lia.
Qed.

(** The total function satisfies the recursive equation of the Go code. *)
Lemma loop_unfold {St Res} (body : (St -> Reader -> Res) -> _) stuck :
  local body ->
  forall st rd, loop body stuck st rd = body (loop body stuck) st rd.
Proof.
  intros Hloc st rd. unfold loop at 1. simpl.
  apply Hloc. intros st' rd' Hlt. unfold loop.
  apply iter_stable; [assumption|lia|lia].
Qed.

End ReaderFacts.

(* ------------------------------------------------------------------------- *)
(** ** The exception decoder *)

Section ExceptionFacts.
Import ch.

Ltac read_step H :=
  match goal with
  | |- context [match ?m ?rd with _ => _ end] =>
      let rd' := fresh "rd" in
      let E := fresh "E" in
      destruct (m rd) as [rd' [?|?]] eqn:E; [|reflexivity];
      first [ apply rd_Int32_consumes in E | apply rd_String_consumes in E
            | apply rd_Bool_consumes in E | apply rd_Uvarint_consumes in E ]
  end.

Lemma readException_local : local readException_body.
Proof.
  intros f g [] rd H. unfold readException_body.
  do 5 read_step H.
  match goal with b : bool |- _ => destruct b end; [|reflexivity].
  rewrite H by lia. reflexivity.
Qed.

Lemma readException_unfold rd :
  readException rd = readException_body (fun _ => readException) tt rd.
Proof.
  unfold readException at 1.
  rewrite (loop_unfold _ _ readException_local). reflexivity.
Qed.

(** The decoder on the five fields of one exception. *)
Lemma readException_fields code name message stackTrace hasNested rd :
  readException
    (Int32_ code :: String_ name :: String_ message :: String_ stackTrace
       :: Bool_ hasNested :: rd)
  = (if hasNested then fst (readException rd) else rd,
     Some (ErrorRef
             (mkError code name
                (strings.TrimSpace
                   (strings.TrimPrefix message (name ++ ":")%string))
                stackTrace
                (if hasNested then snd (readException rd) else None)))).
Proof.
  rewrite readException_unfold. unfold readException_body. simpl.
  destruct hasNested; [|reflexivity].
  destruct (readException rd). reflexivity.
Qed.

Lemma readException_not_nil rd : snd (readException rd) <> None.
Proof.
  rewrite readException_unfold. unfold readException_body.
  repeat match goal with
  | |- context [match ?m ?r with _ => _ end] =>
      destruct (m r) as [? [?|?]]; [|simpl; discriminate]
  end.
  match goal with b : bool |- _ => destruct b end;
    [destruct (readException _)|]; simpl; discriminate.
Qed.

Lemma readException_payload x chain rest :
  readException (exception_payload x chain ++ rest)
  = (rest, Some (ErrorRef (decoded x chain))).
Proof.
  revert x.
  induction chain as [|cause chain IH]; intros x;
    cbn [exception_payload exception_fields app].
  - rewrite readException_fields. reflexivity.
  - rewrite readException_fields, IH. reflexivity.
Qed.

Lemma causes_decoded x chain :
  causes (ErrorRef (decoded x chain)) = decoded_causes chain.
Proof.
  revert x. induction chain as [|cause chain IH]; intros x; simpl.
  - reflexivity.
  - f_equal. apply IH.
Qed.

Lemma decoded_causes_length chain :
  List.length (decoded_causes chain) = List.length chain.
Proof. induction chain; simpl; congruence. Qed.

Lemma decoded_causes_last chain cause :
  last (decoded_causes (chain ++ [cause])) (readError "")
  = ErrorRef (decoded cause []).
Proof.
  induction chain as [|c chain IH]; [reflexivity|].
  simpl decoded_causes. simpl app.
  change (decoded_causes (c :: chain ++ [cause]))
    with (ErrorRef (decoded c (chain ++ [cause]))
            :: decoded_causes (chain ++ [cause])).
  destruct (decoded_causes (chain ++ [cause])) eqn:E.
  - destruct chain; discriminate.
  - rewrite <- IH. reflexivity.
Qed.

(** C3, as the code has it: a well-formed exception payload whose
    has-nested flag is true [N] times decodes into an [Error] with exactly
    [N] linked causes, in wire order with the innermost last, and nothing
    of what follows the payload is read.  The [Message] of every decoded
    exception is the wire message with one leading occurrence of its
    [Name] and a colon removed, when there is one, and the surrounding
    white space trimmed. *)
Theorem readException_chain :
  forall (x : ExceptionFields) (chain before : list ExceptionFields)
         (innermost : ExceptionFields) (rest : Reader),
    readException (exception_payload x chain ++ rest)
    = (rest, Some (ErrorRef (decoded x chain)))
    /\ List.length (causes (ErrorRef (decoded x chain))) = List.length chain
    /\ causes (ErrorRef (decoded x chain)) = decoded_causes chain
    /\ last (causes (ErrorRef (decoded x (before ++ [innermost]))))
            (readError "")
       = ErrorRef (decoded innermost [])
    /\ nested (decoded innermost []) = None
    /\ Message (decoded x chain)
       = strings.TrimSpace
           (strings.TrimPrefix (wMessage x) (wName x ++ ":")%string).
Proof.
  intros x chain before innermost rest.
  split; [|split; [|split; [|split; [|split]]]].
  - apply readException_payload.
  - rewrite causes_decoded. apply decoded_causes_length.
  - apply causes_decoded.
  - rewrite causes_decoded. apply decoded_causes_last.
  - reflexivity.
  - destruct chain; reflexivity.
Qed.

(** C3 as stated fails: the server repeats the name in the message, one
    occurrence is removed, and the decoded message still starts with the
    name and a colon. *)
Lemma readException_keeps_second_prefix :
  let rd :=
    [Int32_ 60; String_ "DB::Exception";
     String_ "DB::Exception: DB::Exception: Table default.t doesn't exist";
     String_ ""; Bool_ false] in
  exists exc,
    readException rd = ([], Some (ErrorRef exc))
    /\ Name exc = "DB::Exception"%string
    /\ Message exc = "DB::Exception: Table default.t doesn't exist"%string
    /\ strings.HasPrefix (Message exc) (Name exc ++ ":") = true.
Proof.
  eexists. split; [vm_compute; reflexivity|].
  repeat split.
Qed.

(** The message [E:<U+00A0>hello<U+00A0>] of the exception [E]: the prefix
    goes and so do the no-break spaces, encoded [c2 a0], at both ends. *)
Example readException_trims_no_break_space :
  snd (readException
         [Int32_ 1; String_ "E";
          String_
            (String "E"
               (String ":"
                  (String "194"
                     (String "160"
                        ("hello" ++ String "194" (String "160" ""))))));
          String_ ""; Bool_ false])
  = Some (ErrorRef (mkError 1 "E" "hello" "" None)).
Proof. vm_compute. reflexivity. Qed.

(** C10: once the five fields of the outer exception have been read,
    [readException] returns the outer [Error], never [nil] and never the
    error of the nested decode: whatever the nested call returns, a read
    error included, is attached as the [nested] cause. *)
Theorem readException_returns_outer :
  forall (code : Z) (name message stackTrace : string) (hasNested : bool)
         (t : string) (rd : Reader),
    let outer nested_ :=
      ErrorRef
        (mkError code name
           (strings.TrimSpace
              (strings.TrimPrefix message (name ++ ":")%string))
           stackTrace nested_) in
    snd (readException
           (Int32_ code :: String_ name :: String_ message
              :: String_ stackTrace :: Bool_ hasNested :: rd))
    = Some (outer (if hasNested then snd (readException rd) else None))
    /\ snd (readException
              (Int32_ code :: String_ name :: String_ message
                 :: String_ stackTrace :: Bool_ true :: Fail_ t :: rd))
       = Some (outer (Some (readError t)))
    /\ snd (readException
              (Int32_ code :: String_ name :: String_ message
                 :: String_ stackTrace :: Bool_ true
                 :: Int32_ code :: String_ name :: Fail_ t :: rd))
       = Some (outer (Some (readError t)))
    /\ snd (readException rd) <> None.
Proof.
  intros. subst outer. split; [|split; [|split]].
  - rewrite readException_fields. reflexivity.
  - rewrite readException_fields. reflexivity.
  - rewrite readException_fields. reflexivity.
  - apply readException_not_nil.
Qed.

(** The decoder returns an [Error] exactly when the script starts with the
    five fields of an exception, and the error of a read otherwise. *)
Lemma readException_cases rd :
  (exists code name message stackTrace hasNested rd',
     rd = Int32_ code :: String_ name :: String_ message
            :: String_ stackTrace :: Bool_ hasNested :: rd'
     /\ snd (readException rd)
        = Some (ErrorRef
                  (mkError code name
                     (strings.TrimSpace
                        (strings.TrimPrefix message (name ++ ":")%string))
                     stackTrace
                     (if hasNested then snd (readException rd')
                      else None))))
  \/ (exists t, snd (readException rd) = Some (readError t)).
Proof.
  destruct rd as [|[] rd];
    try (right; eexists; rewrite readException_unfold; reflexivity).
  destruct rd as [|[] rd];
    try (right; eexists; rewrite readException_unfold; reflexivity).
  destruct rd as [|[] rd];
    try (right; eexists; rewrite readException_unfold; reflexivity).
  destruct rd as [|[] rd];
    try (right; eexists; rewrite readException_unfold; reflexivity).
  destruct rd as [|[] rd];
    try (right; eexists; rewrite readException_unfold; reflexivity).
  left. do 6 eexists. split; [reflexivity|].
  rewrite readException_fields. reflexivity.
Qed.

Lemma readException_trimmed_chain n :
  forall rd e,
    List.length rd < n ->
    snd (readException rd) = Some e -> trimmed_chain e.
Proof.
  induction n as [|n IH]; intros rd e Hlen Hrun; [lia|].
  destruct (readException_cases rd)
    as [(code & name & message & stackTrace & hasNested & rd' & -> & Hexc)
       |(t & Hread)].
  - rewrite Hexc in Hrun. inversion Hrun; subst e. cbn [trimmed_chain].
    destruct (TrimSpace_trimmed
                (strings.TrimPrefix message (name ++ ":")%string))
      as [Hs He].
    split; [exact Hs|]. split; [exact He|].
    destruct hasNested; [|exact I].
    destruct (snd (readException rd')) as [e'|] eqn:Hnested; [|exact I].
    apply (IH rd' e'); [cbn in Hlen; lia|exact Hnested].
  - rewrite Hread in Hrun. inversion Hrun; subst e. exact I.
Qed.

(** X3: whatever the script, the message of a decoded exception, and of
    every exception along its chain of causes, neither starts nor ends with
    white space. *)
Theorem readException_messages_trimmed :
  forall (rd : Reader) (e : error),
    snd (readException rd) = Some e -> trimmed_chain e.
Proof.
  intros rd e Hrun.
  apply (readException_trimmed_chain (S (List.length rd)) rd e);
    [lia|exact Hrun].
Qed.


End ExceptionFacts.

(* ------------------------------------------------------------------------- *)
(** ** Blocks *)

Section BlockFacts.
Import ch.

Lemma int_of_uint64_small (v : N) :
  (Z.of_N v < 2 ^ 63)%Z -> int_of_uint64 v = Z.of_N v.
Proof.
  intros H. unfold int_of_uint64.
  rewrite Z.mod_small by lia.
  destruct (Z.ltb_spec (Z.of_N v) (2 ^ 63)); lia.
Qed.

Lemma add_int_small (a b : Z) :
  (- 2 ^ 63 <= a + b < 2 ^ 63)%Z -> add_int a b = (a + b)%Z.
Proof.
  intros H. unfold add_int. rewrite Z.mod_small by lia. lia.
Qed.

Lemma readBlock_columns_shrinks todo numRow rd block :
  List.length (fst (fst (readBlock_columns todo numRow rd block)))
  <= List.length rd.
Proof.
  revert rd block. induction todo as [|todo IH]; intros rd block; simpl.
  - lia.
  - pose proof (rd_String_shrinks rd) as L1.
    destruct (rd_String rd) as [rd1 [colName|err]]; simpl in *; [|lia].
    destruct (String.eqb colName ""); simpl; [lia|].
    pose proof (rd_String_shrinks rd1) as L2.
    destruct (rd_String rd1) as [rd2 [colType|err]]; simpl in *; [|lia].
    destruct (String.eqb colType ""); simpl; [lia|].
    pose proof (Column_ReadFrom_shrinks rd2 (int_of_uint64 numRow)) as L3.
    destruct (Column_ReadFrom rd2 (int_of_uint64 numRow))
      as [rd3 [values|err]]; simpl in *; [|lia].
    specialize (IH rd3 (Block_fill (Block_Column block colName colType)
                                   values)).
    lia.
Qed.

Lemma readBlock_shrinks rd block :
  List.length (fst (fst (readBlock rd block))) <= List.length rd.
Proof.
  unfold readBlock, WithCompression.
  pose proof (rd_String_shrinks rd) as L1.
  destruct (rd_String rd) as [rd1 [?|err]]; simpl in *; [|lia].
  pose proof (readBlockInfo_shrinks rd1) as L2.
  destruct (readBlockInfo rd1) as [rd2 [?|err]]; simpl in *; [|lia].
  pose proof (rd_Uvarint_shrinks rd2) as L3.
  destruct (rd_Uvarint rd2) as [rd3 [numColumn|err]]; simpl in *; [|lia].
  pose proof (rd_Uvarint_shrinks rd3) as L4.
  destruct (rd_Uvarint rd3) as [rd4 [numRow|err]]; simpl in *; [|lia].
  match goal with
  | |- context [readBlock_columns ?t ?n ?r ?b] =>
      pose proof (readBlock_columns_shrinks t n r b)
  end.
  lia.
Qed.

Lemma Block_fill_Column block name type values :
  Block_fill (Block_Column block name type) values
  = {| NumColumn := NumColumn block;
       NumRow := NumRow block;
       Columns :=
         Columns block
         ++ [{| colName := name; colType := type; colValues := values |}] |}.
Proof.
  unfold Block_fill, Block_Column. simpl.
  rewrite rev_app_distr. simpl. rewrite rev_involutive. reflexivity.
Qed.

(** The loop over the columns on well-formed columns. *)
Lemma readBlock_columns_payload numRow columns rest block :
  Forall (fun c => wColName c <> ""%string /\ wColType c <> ""%string)
         columns ->
  readBlock_columns (List.length columns) numRow
    (flat_map column_payload columns ++ rest) block
  = (rest,
     {| NumColumn := NumColumn block;
        NumRow := NumRow block;
        Columns := Columns block ++ map column_of columns |},
     None).
Proof.
  intros Hwf. revert block.
  induction Hwf as [|c columns [Hname Htype] _ IH]; intros block.
  - simpl. rewrite app_nil_r. destruct block; reflexivity.
  - cbn [List.length flat_map column_payload app readBlock_columns rd_String].
    apply String.eqb_neq in Hname, Htype. rewrite Hname, Htype.
    cbn [Column_ReadFrom]. rewrite Block_fill_Column, IH. simpl.
    rewrite <- app_assoc. reflexivity.
Qed.

(** [readBlock] on a well-formed block: the header sets the counts, the
    columns are appended in wire order, and what follows is left unread. *)
Lemma readBlock_payload tableName info numRow columns rest block :
  (Z.of_nat (List.length columns) < 2 ^ 63)%Z ->
  Forall (fun c => wColName c <> ""%string /\ wColType c <> ""%string)
         columns ->
  readBlock (block_payload tableName info numRow columns ++ rest) block
  = (rest,
     {| NumColumn := Z.of_nat (List.length columns);
        NumRow := int_of_uint64 numRow;
        Columns := Columns block ++ map column_of columns |},
     None).
Proof.
  intros Hlen Hwf. unfold readBlock, WithCompression, block_payload.
  cbn [app rd_String readBlockInfo mbind mret rd_Uvarint rd_Bool rd_Int32].
  rewrite int_of_uint64_small by (rewrite nat_N_Z; exact Hlen).
  rewrite nat_N_Z, Nat2Z.id.
  rewrite readBlock_columns_payload by exact Hwf. reflexivity.
Qed.

(** The header of a block leaves the loop over the columns to run. *)
Lemma readBlock_header tableName info numColumn numRow rd block :
  readBlock
    (String_ tableName
       :: Uvarint_ (field1 info) :: Bool_ (isOverflows info)
       :: Uvarint_ (field2 info) :: Int32_ (bucketNum info)
       :: Uvarint_ (field0 info)
       :: Uvarint_ numColumn :: Uvarint_ numRow :: rd) block
  = readBlock_columns (Z.to_nat (int_of_uint64 numColumn)) numRow rd
      {| NumColumn := int_of_uint64 numColumn;
         NumRow := int_of_uint64 numRow;
         Columns := Columns block |}.
Proof. reflexivity. Qed.

(** The loop over the columns stops at a column without a name or without
    a type, whatever well-formed columns came before it. *)
Lemma readBlock_columns_blank numRow before more name rest block :
  Forall (fun c => wColName c <> ""%string /\ wColType c <> ""%string)
         before ->
  let block' :=
    {| NumColumn := NumColumn block;
       NumRow := NumRow block;
       Columns := Columns block ++ map column_of before |} in
  readBlock_columns (List.length before + S more) numRow
    (flat_map column_payload before ++ String_ "" :: rest) block
  = (rest, block', Some (errorString "ch: column has empty name"))
  /\ (name <> ""%string ->
      readBlock_columns (List.length before + S more) numRow
        (flat_map column_payload before
           ++ String_ name :: String_ "" :: rest) block
      = (rest, block',
         Some (errorString
                 ("ch: column=" ++ name ++ " has empty type")%string))).
Proof.
  intros Hwf. revert block.
  induction Hwf as [|c before [Hname Htype] _ IH]; intros block block'.
  - subst block'. cbn [List.length flat_map app Nat.add map].
    rewrite app_nil_r. split.
    + destruct block; reflexivity.
    + intros Hn. apply String.eqb_neq in Hn.
      cbn [readBlock_columns rd_String]. rewrite Hn.
      destruct block; reflexivity.
  - specialize (IH
      {| NumColumn := NumColumn block;
         NumRow := NumRow block;
         Columns := Columns block ++ [column_of c] |}).
    cbn [NumColumn NumRow Columns] in IH.
    rewrite <- app_assoc in IH. cbn [app] in IH.
    apply String.eqb_neq in Hname, Htype.
    subst block'.
    cbn [List.length flat_map column_payload app Nat.add map
         readBlock_columns rd_String].
    rewrite Hname, Htype. cbn [Column_ReadFrom].
    rewrite Block_fill_Column. exact IH.
Qed.

(** C6: during the decode of a block, at every column position, an empty
    column name ends the decode with the error "ch: column has empty name"
    and an empty type with "ch: column=<name> has empty type", which names
    the column; in both cases nothing after the empty string is read and
    the block holds the columns before that position only. *)
Theorem readBlock_rejects_blank :
  forall (tableName : string) (info : BlockInfo) (numColumn numRow : N)
         (before : list ColumnData) (name : string) (rest : Reader)
         (block : Block),
    Forall (fun c => wColName c <> ""%string /\ wColType c <> ""%string)
           before ->
    List.length before < Z.to_nat (int_of_uint64 numColumn) ->
    name <> ""%string ->
    let header :=
      [String_ tableName;
       Uvarint_ (field1 info); Bool_ (isOverflows info);
       Uvarint_ (field2 info); Int32_ (bucketNum info);
       Uvarint_ (field0 info);
       Uvarint_ numColumn; Uvarint_ numRow]
      ++ flat_map column_payload before in
    let block' :=
      {| NumColumn := int_of_uint64 numColumn;
         NumRow := int_of_uint64 numRow;
         Columns := Columns block ++ map column_of before |} in
    readBlock (header ++ String_ "" :: rest) block
    = (rest, block', Some (errorString "ch: column has empty name"))
    /\ readBlock (header ++ String_ name :: String_ "" :: rest) block
       = (rest, block',
          Some (errorString
                  ("ch: column=" ++ name ++ " has empty type")%string))
    /\ strings.Contains ("ch: column=" ++ name ++ " has empty type") name
       = true
    /\ strings.Contains ("ch: column=" ++ name ++ " has empty type")
                        "empty type"
       = true.
Proof.
  intros tableName info numColumn numRow before name rest block
         Hwf Hpos Hname header block'.
  subst header block'.
  cbn [app]. rewrite 2 readBlock_header.
  replace (Z.to_nat (int_of_uint64 numColumn))
    with (List.length before
          + S (Z.to_nat (int_of_uint64 numColumn) - S (List.length before)))
    by lia.
  match goal with
  | |- context [readBlock_columns (_ + S ?more) _ _ ?b] =>
      destruct (readBlock_columns_blank numRow before more name rest b Hwf)
        as [Hblank Htype]
  end.
  split; [exact Hblank|]. split; [exact (Htype Hname)|]. split.
  - apply Contains_app.
  - do 2 apply Contains_skip. reflexivity.
Qed.

(** The loop over the columns, when it succeeds on any script, has added
    one named and typed column per round and left the counts alone. *)
Lemma readBlock_columns_success todo numRow :
  forall rd block rd' block',
    readBlock_columns todo numRow rd block = (rd', block', None) ->
    exists cols,
      Columns block' = Columns block ++ cols
      /\ List.length cols = todo
      /\ Forall (fun c => colName c <> ""%string /\ colType c <> ""%string)
                cols
      /\ NumColumn block' = NumColumn block
      /\ NumRow block' = NumRow block.
Proof.
  induction todo as [|todo IH]; intros rd block rd' block' Hrun.
  - cbn in Hrun. inversion Hrun; subst. exists [].
    rewrite app_nil_r. repeat split. constructor.
  - cbn [readBlock_columns] in Hrun.
    destruct (rd_String rd) as [rd1 [name|err]]; [|discriminate].
    destruct (String.eqb_spec name "") as [|Hname]; [discriminate|].
    destruct (rd_String rd1) as [rd2 [type|err]]; [|discriminate].
    destruct (String.eqb_spec type "") as [|Htype]; [discriminate|].
    destruct (Column_ReadFrom rd2 (int_of_uint64 numRow))
      as [rd3 [values|err]]; [|discriminate].
    rewrite Block_fill_Column in Hrun.
    destruct (IH _ _ _ _ Hrun) as (cols & Hcols & Hlen & Hall & Hnc & Hnr).
    cbn [Columns NumColumn NumRow] in Hcols, Hnc, Hnr.
    exists ({| colName := name; colType := type; colValues := values |}
              :: cols).
    rewrite <- app_assoc in Hcols. cbn [app] in Hcols.
    split; [exact Hcols|]. split; [cbn; congruence|].
    split; [|split; assumption].
    constructor; [split; assumption|exact Hall].
Qed.

(** X1: [readBlock] on a well-formed block sets the column and row counts
    from the header and appends the columns with their names, types and
    values in wire order; what follows the block is left unread. *)
Theorem readBlock_well_formed_block :
  forall (tableName : string) (info : BlockInfo) (numRow : N)
         (columns : list ColumnData) (rest : Reader) (block : Block),
    (Z.of_nat (List.length columns) < 2 ^ 63)%Z ->
    Forall (fun c => wColName c <> ""%string /\ wColType c <> ""%string)
           columns ->
    exists block',
      readBlock (block_payload tableName info numRow columns ++ rest) block
      = (rest, block', None)
      /\ NumColumn block' = Z.of_nat (List.length columns)
      /\ NumRow block' = int_of_uint64 numRow
      /\ Columns block' = Columns block ++ map column_of columns
      /\ map colName (map column_of columns) = map wColName columns
      /\ map colType (map column_of columns) = map wColType columns.
Proof.
  intros tableName info numRow columns rest block Hlen Hwf.
  eexists. split; [apply readBlock_payload; assumption|].
  cbn [NumColumn NumRow Columns]. repeat split.
  - rewrite map_map. reflexivity.
  - rewrite map_map. reflexivity.
Qed.

(** X2: whatever the script, when [readBlock] returns no error the block
    has gained exactly [int(numColumn)] columns (none when that is
    negative), each with a non-empty name and a non-empty type, after the
    columns it had. *)
Theorem readBlock_success_columns :
  forall (rd rd' : Reader) (block block' : Block),
    readBlock rd block = (rd', block', None) ->
    exists cols,
      Columns block' = Columns block ++ cols
      /\ List.length cols = Z.to_nat (NumColumn block')
      /\ Forall (fun c => colName c <> ""%string /\ colType c <> ""%string)
                cols.
Proof.
  intros rd rd' block block' Hrun.
  unfold readBlock, WithCompression in Hrun.
  destruct (rd_String rd) as [rd1 [?|err]]; [|discriminate].
  destruct (readBlockInfo rd1) as [rd2 [?|err]]; [|discriminate].
  destruct (rd_Uvarint rd2) as [rd3 [numColumn|err]]; [|discriminate].
  destruct (rd_Uvarint rd3) as [rd4 [numRow|err]]; [|discriminate].
  destruct (readBlock_columns_success _ _ _ _ _ _ Hrun)
    as (cols & Hcols & Hlen & Hall & Hnc & _).
  cbn [Columns NumColumn] in Hcols, Hnc.
  exists cols. rewrite Hnc. repeat split; assumption.
Qed.

End BlockFacts.

(* ------------------------------------------------------------------------- *)
(** ** The packet-dispatch loops *)

Section DispatchFacts.
Import ch.
Context {opcodes : Opcodes}.

Lemma opcodes_apart (i j : nat) :
  i < 8 -> j < 8 -> i <> j ->
  nth i server_vocabulary 0%N <> nth j server_vocabulary 0%N.
Proof.
  intros Hi Hj Hij Heq. apply Hij.
  apply (proj1 (NoDup_nth server_vocabulary 0%N) server_opcodes_distinct);
    simpl; assumption.
Qed.

Lemma outside_vocabulary (p : N) (i : nat) :
  ~ In p server_vocabulary -> i < 8 -> p <> nth i server_vocabulary 0%N.
Proof.
  intros Hout Hi ->. apply Hout. apply nth_In. simpl. exact Hi.
Qed.

Ltac for_index tac :=
  first [ tac 0%nat | tac 1%nat | tac 2%nat | tac 3%nat
        | tac 4%nat | tac 5%nat | tac 6%nat | tac 7%nat ].

(** Two opcodes at different places of the vocabulary, or an opcode outside
    it and one inside, are different. *)
Ltac apart :=
  first
    [ for_index ltac:(fun i => for_index ltac:(fun j =>
        exact (opcodes_apart i j ltac:(lia) ltac:(lia) ltac:(lia))))
    | for_index ltac:(fun i =>
        match goal with
        | H : ~ In _ server_vocabulary |- _ =>
            exact (outside_vocabulary _ i H ltac:(lia))
        end) ].

(** Decides the tests of a [switch] over opcodes. *)
Ltac switch :=
  repeat match goal with
  | |- context [N.eqb ?a ?a] => rewrite (N.eqb_refl a)
  | |- context [N.eqb ?a ?b] =>
      replace (N.eqb a b) with false
        by (symmetry; apply N.eqb_neq; apart)
  end.

Ltac shrink_with L :=
  match goal with
  | |- context [match ?m ?r with _ => _ end] =>
      let Hle := fresh "Hle" in
      pose proof (L r) as Hle;
      destruct (m r) as [? [?|?]]; simpl in Hle; [|reflexivity]
  end.

Lemma readSampleBlock_local : local readSampleBlock_body.
Proof.
  intros f g [] rd H. unfold readSampleBlock_body.
  destruct (rd_Uvarint rd) as [rd1 [packet|err]] eqn:E; [|reflexivity].
  apply rd_Uvarint_consumes in E.
  repeat match goal with
  | |- context [if ?c then _ else _] => destruct c
  end; try reflexivity.
  shrink_with readServerTableColumns_shrinks. apply H. lia.
Qed.

Lemma readDataBlocks_local : local readDataBlocks_body.
Proof.
  intros f g [res block] rd H. unfold readDataBlocks_body.
  destruct (rd_Uvarint rd) as [rd1 [packet|err]] eqn:E; [|reflexivity].
  apply rd_Uvarint_consumes in E.
  repeat match goal with
  | |- context [if ?c then _ else _] => destruct c
  end; try reflexivity.
  - pose proof (readBlock_shrinks rd1 block) as Hle.
    destruct (readBlock rd1 block) as [[rd2 block2] [err|]];
      simpl in Hle; [reflexivity|].
    apply H. lia.
  - shrink_with readProgress_shrinks. apply H. lia.
  - shrink_with readProfileInfo_shrinks. apply H. lia.
  - shrink_with readServerTableColumns_shrinks. apply H. lia.
Qed.

Lemma readPong_local : local readPong_body.
Proof. intros f g [] rd H. reflexivity. Qed.

Lemma blockIter_read_local : local blockIter_read_body.
Proof.
  intros f g block rd H. unfold blockIter_read_body.
  destruct (rd_Uvarint rd) as [rd1 [packet|err]] eqn:E; [|reflexivity].
  apply rd_Uvarint_consumes in E.
  repeat match goal with
  | |- context [if ?c then _ else _] => destruct c
  end; try reflexivity.
  - shrink_with readProgress_shrinks. apply H. lia.
  - shrink_with readProfileInfo_shrinks. apply H. lia.
  - shrink_with readServerTableColumns_shrinks. apply H. lia.
Qed.

(** The loops satisfy the equations of the Go code. *)
Lemma readSampleBlock_unfold rd :
  readSampleBlock rd = readSampleBlock_body (fun _ => readSampleBlock) tt rd.
Proof.
  unfold readSampleBlock at 1.
  rewrite (loop_unfold _ _ readSampleBlock_local). reflexivity.
Qed.

Lemma readDataBlocks_from_unfold res block rd :
  readDataBlocks_from res block rd
  = readDataBlocks_body
      (fun st => readDataBlocks_from (fst st) (snd st)) (res, block) rd.
Proof.
  unfold readDataBlocks_from at 1.
  rewrite (loop_unfold _ _ readDataBlocks_local).
  apply readDataBlocks_local. intros [res' block'] rd' _. reflexivity.
Qed.

Lemma readPong_unfold rd :
  readPong rd = readPong_body (fun _ => readPong) tt rd.
Proof.
  unfold readPong at 1.
  rewrite (loop_unfold _ _ readPong_local). reflexivity.
Qed.

Lemma blockIter_read_unfold block rd :
  blockIter_read block rd = blockIter_read_body blockIter_read block rd.
Proof.
  unfold blockIter_read at 1.
  rewrite (loop_unfold _ _ blockIter_read_local). reflexivity.
Qed.

(** The accumulate loop passes over well-formed packets, counting rows. *)
Lemma readDataBlocks_from_skip ps :
  forall res block tail,
    Forall well_formed ps ->
    exists block',
      readDataBlocks_from res block (stream_payload ps ++ tail)
      = readDataBlocks_from (affected_after res ps) block' tail.
Proof.
  induction ps as [|p ps IH]; intros res block tail Hwf.
  - exists block. reflexivity.
  - inversion Hwf as [|? ? Hp Hps]; subst.
    unfold stream_payload. cbn [flat_map]. rewrite <- app_assoc.
    fold (stream_payload ps).
    rewrite readDataBlocks_from_unfold. unfold readDataBlocks_body.
    destruct p as [tableName info numRow columns| | |];
      cbn [packet_payload app rd_Uvarint]; switch.
    + destruct Hp as [Hlen Hcols].
      rewrite readBlock_payload by assumption.
      cbn [fst snd NumRow affected_after is_Data rows_of].
      destruct (IH (Some
                      {| affected :=
                           add_int
                             (affected
                                match res with
                                | Some res0 => res0
                                | None => new_result
                                end)
                             (int_of_uint64 numRow) |})
                   {| NumColumn := Z.of_nat (List.length columns);
                      NumRow := int_of_uint64 numRow;
                      Columns := Columns block ++ map column_of columns |}
                   tail Hps) as [block' Hblock'].
      exists block'. rewrite Hblock'. destruct res; reflexivity.
    + cbn. apply IH. exact Hps.
    + cbn. apply IH. exact Hps.
    + cbn. apply IH. exact Hps.
Qed.

Lemma affected_after_accumulated ps :
  forall res,
    let entered :=
      match res with
      | None => 0%Z
      | Some r => affected r
      end in
    (0 <= entered)%Z ->
    (entered + Z.of_N (total_rows ps) < 2 ^ 63)%Z ->
    affected_after res ps = accumulated res ps.
Proof.
  induction ps as [|p ps IH]; intros res entered Hlo Hhi; subst entered.
  - unfold accumulated. simpl.
    destruct res as [[a]|]; [|reflexivity].
    simpl. rewrite Z.add_0_r. reflexivity.
  - cbn [affected_after total_rows fold_right] in *.
    fold (total_rows ps) in *.
    destruct p as [tableName info numRow columns| | |];
      cbn [is_Data rows_of] in *.
    + rewrite N2Z.inj_add in Hhi.
      pose proof (N2Z.is_nonneg numRow). pose proof (N2Z.is_nonneg (total_rows ps)).
      rewrite int_of_uint64_small by lia.
      rewrite add_int_small by lia.
      rewrite IH by (simpl; lia).
      unfold accumulated. cbn [existsb is_Data orb total_rows fold_right rows_of affected].
      fold (total_rows ps). rewrite N2Z.inj_add.
      destruct res as [[a]|]; simpl; f_equal; f_equal; lia.
    + rewrite IH by assumption. unfold accumulated.
      cbn [existsb is_Data orb total_rows fold_right rows_of].
      reflexivity.
    + rewrite IH by assumption. unfold accumulated.
      cbn [existsb is_Data orb total_rows fold_right rows_of].
      reflexivity.
    + rewrite IH by assumption. unfold accumulated.
      cbn [existsb is_Data orb total_rows fold_right rows_of].
      reflexivity.
Qed.

Lemma readDataBlocks_from_EndOfStream res block rest :
  readDataBlocks_from res block (Uvarint_ ServerEndOfStream :: rest)
  = (rest, (res, None)).
Proof.
  rewrite readDataBlocks_from_unfold. unfold readDataBlocks_body.
  cbn [rd_Uvarint]. switch. reflexivity.
Qed.

(** C2: on data packets interleaved with progress, profile-info and
    table-columns packets and ended by the end of the stream, the accumulate
    loop returns a result whose [affected] is the sum of the row counts of
    the data packets, and no result when there was no data packet.  The
    sum is taken within the range of [int], beyond which a result set is
    not supported. *)
Theorem readDataBlocks_affected :
  forall (ps : list packet) (rest : Reader),
    Forall well_formed ps ->
    (Z.of_N (total_rows ps) < 2 ^ 63)%Z ->
    readDataBlocks (stream_payload ps ++ Uvarint_ ServerEndOfStream :: rest)
    = (rest,
       (if existsb is_Data ps
        then Some {| affected := Z.of_N (total_rows ps) |}
        else None,
        None)).
Proof.
  intros ps rest Hwf Hrange. unfold readDataBlocks.
  destruct (readDataBlocks_from_skip ps None newBlock
              (Uvarint_ ServerEndOfStream :: rest) Hwf) as [block' ->].
  rewrite readDataBlocks_from_EndOfStream.
  rewrite affected_after_accumulated by (simpl; lia).
  reflexivity.
Qed.

Lemma readSampleBlock_skip ps tail :
  forallb is_TableColumns ps = true ->
  readSampleBlock (stream_payload ps ++ tail) = readSampleBlock tail.
Proof.
  induction ps as [|p ps IH]; intros Hps; [reflexivity|].
  cbn [forallb] in Hps. apply andb_prop in Hps. destruct Hps as [Hp Hps].
  destruct p; try discriminate.
  unfold stream_payload. cbn [flat_map packet_payload app].
  fold (stream_payload ps).
  rewrite readSampleBlock_unfold. unfold readSampleBlock_body.
  cbn [rd_Uvarint]. switch. cbn. apply IH, Hps.
Qed.

Lemma blockIter_read_skip ps block tail :
  forallb (fun p => negb (is_Data p)) ps = true ->
  blockIter_read block (stream_payload ps ++ tail)
  = blockIter_read block tail.
Proof.
  induction ps as [|p ps IH]; intros Hps; [reflexivity|].
  cbn [forallb] in Hps. apply andb_prop in Hps. destruct Hps as [Hp Hps].
  unfold stream_payload. cbn [flat_map]. rewrite <- app_assoc.
  fold (stream_payload ps).
  rewrite blockIter_read_unfold. unfold blockIter_read_body.
  destruct p; try discriminate;
    cbn [packet_payload app rd_Uvarint]; switch; cbn; apply IH, Hps.
Qed.

Lemma unexpected_packet_text fn packet :
  exists text,
    unexpected_packet fn packet = errorString text
    /\ strings.Contains text "unexpected packet" = true
    /\ strings.Contains text (fmt.d packet) = true.
Proof.
  eexists. split; [reflexivity|]. split.
  - change ("ch: " ++ fn ++ ": unexpected packet: " ++ fmt.d packet)%string
      with ("ch: " ++ fn ++ ": " ++ "unexpected packet"
              ++ ": " ++ fmt.d packet)%string.
    do 3 apply Contains_skip. apply Contains_self_app.
  - do 3 apply Contains_skip. apply Contains_app_r with (a := ""%string).
Qed.

(** C1: in each of the four loops (sample block, data blocks, single
    packet, pong), a [ServerException] packet ends the loop with the decoded
    exception as the error and no result, at any point: in the sample-block
    loop also after table-columns packets, in the data-blocks loop also
    after data packets have been counted.  An opcode outside the server's
    vocabulary ends the loop, at any point as well, with an "unexpected
    packet" error that carries the opcode in decimal, again with no
    result. *)
Theorem dispatch_loops_abort :
  forall (res : option result) (block : Block) (tcs ps : list packet)
         (x : ExceptionFields) (chain : list ExceptionFields)
         (packet : N) (rest : Reader),
    forallb is_TableColumns tcs = true ->
    Forall well_formed ps ->
    ~ In packet server_vocabulary ->
    let exception :=
      Uvarint_ ServerException :: exception_payload x chain ++ rest in
    let decoded_exception := Some (ErrorRef (decoded x chain)) in
    (readSampleBlock (stream_payload tcs ++ exception)
     = (rest, (None, decoded_exception))
     /\ readDataBlocks_from res block (stream_payload ps ++ exception)
        = (rest, (None, decoded_exception))
     /\ readPacket exception = (rest, (None, decoded_exception))
     /\ readPong exception = (rest, decoded_exception))
    /\ (readSampleBlock (stream_payload tcs ++ Uvarint_ packet :: rest)
        = (rest, (None, Some (unexpected_packet "readSampleBlock" packet)))
        /\ readDataBlocks_from res block
             (stream_payload ps ++ Uvarint_ packet :: rest)
           = (rest, (None, Some (unexpected_packet "readDataBlocks" packet)))
        /\ readPacket (Uvarint_ packet :: rest)
           = (rest, (None, Some (unexpected_packet "readPacket" packet)))
        /\ readPong (Uvarint_ packet :: rest)
           = (rest, Some (unexpected_packet "readPong" packet)))
    /\ (forall fn,
          exists text,
            unexpected_packet fn packet = errorString text
            /\ strings.Contains text "unexpected packet" = true
            /\ strings.Contains text (fmt.d packet) = true).
Proof.
  intros res block tcs ps x chain packet rest Htcs Hwf Hout
         exception decoded_exception.
  subst exception decoded_exception.
  destruct (readDataBlocks_from_skip ps res block
              (Uvarint_ ServerException :: exception_payload x chain ++ rest)
              Hwf) as [block1 Hskip1].
  destruct (readDataBlocks_from_skip ps res block
              (Uvarint_ packet :: rest) Hwf) as [block2 Hskip2].
  rewrite !readSampleBlock_skip by exact Htcs.
  split; [|split].
  - split; [|split; [|split]].
    + rewrite readSampleBlock_unfold. unfold readSampleBlock_body.
      cbn [rd_Uvarint]. switch. rewrite readException_payload. reflexivity.
    + rewrite Hskip1, readDataBlocks_from_unfold.
      unfold readDataBlocks_body.
      cbn [rd_Uvarint]. switch. rewrite readException_payload. reflexivity.
    + unfold readPacket.
      cbn [rd_Uvarint]. switch. rewrite readException_payload. reflexivity.
    + rewrite readPong_unfold. unfold readPong_body.
      cbn [rd_Uvarint]. switch. apply readException_payload.
  - split; [|split; [|split]].
    + rewrite readSampleBlock_unfold. unfold readSampleBlock_body.
      cbn [rd_Uvarint]. switch. reflexivity.
    + rewrite Hskip2, readDataBlocks_from_unfold.
      unfold readDataBlocks_body.
      cbn [rd_Uvarint]. switch. reflexivity.
    + unfold readPacket. cbn [rd_Uvarint]. switch. reflexivity.
    + rewrite readPong_unfold. unfold readPong_body.
      cbn [rd_Uvarint]. switch. reflexivity.
  - intros fn. apply unexpected_packet_text.
Qed.

(** *** The streaming iterator *)

(** What a pull does on an open iterator, by the outcome of the read. *)
Lemma Next_open db it c block :
  cn it = Some c ->
  Next db it block
  = let '(rd, block', (ok, err)) := blockIter_read block (cn_rd c) in
    match err with
    | Some e =>
        (releaseConn db (set_rd c rd) (Some e),
         {| cn := None; stickyErr := Some e |}, block', false)
    | None =>
        if ok then
          (db, {| cn := Some (set_rd c rd); stickyErr := stickyErr it |},
           block', true)
        else
          (releaseConn db (set_rd c rd) (stickyErr it),
           {| cn := None; stickyErr := stickyErr it |}, block', false)
    end.
Proof.
  intros Hc. unfold Next. rewrite Hc.
  destruct (blockIter_read block (cn_rd c)) as [[rd block'] [ok [e|]]];
    [reflexivity|].
  destruct ok; reflexivity.
Qed.

Lemma Next_closed db it block :
  cn it = None -> Next db it block = (db, it, block, false).
Proof. intros Hc. unfold Next. rewrite Hc. reflexivity. Qed.







(** *** The handshake *)

(** C5: after the client hello has been written, [hello] reads one
    packet.  A server hello fills [ServerInfo] and succeeds; a server
    exception is returned decoded as the error; any other opcode is
    answered at once with an "unexpected packet" error carrying the opcode.
    In each case the reader is left right after that one packet and the
    client hello has been sent once; when the write fails, nothing is
    read. *)
Theorem hello_reads_one_packet :
  forall (cfg : Config) (sent : list written) (srv : ServerInfo)
         (name : string) (major minor revision : N)
         (x : ExceptionFields) (chain : list ExceptionFields)
         (packet : N) (e : error) (rest : Reader),
    packet <> ServerHello ->
    packet <> ServerException ->
    let conn rd flush :=
      {| cn_rd := rd; cn_sent := sent; cn_flush := flush;
         cn_ServerInfo := srv |} in
    let answered info :=
      {| cn_rd := rest;
         cn_sent :=
           sent ++ [wUvarint ClientHello; wString clientName;
                    wUvarint chVersionMajor; wUvarint chVersionMinor;
                    wUvarint chRevision; wString (Database cfg);
                    wString (User cfg); wString (Password cfg)];
         cn_flush := None;
         cn_ServerInfo := info |} in
    hello cfg
      (conn (Uvarint_ ServerHello :: String_ name :: Uvarint_ major
               :: Uvarint_ minor :: Uvarint_ revision :: rest) None)
    = (answered {| srvName := name; MajorVer := major; MinorVer := minor;
                   Revision := revision |},
       None)
    /\ hello cfg
         (conn (Uvarint_ ServerException :: exception_payload x chain ++ rest)
               None)
       = (answered srv, Some (ErrorRef (decoded x chain)))
    /\ hello cfg (conn (Uvarint_ packet :: rest) None)
       = (answered srv, Some (unexpected_packet "hello" packet))
    /\ hello cfg (conn (Uvarint_ packet :: rest) (Some e))
       = (conn (Uvarint_ packet :: rest) (Some e), Some e)
    /\ (exists text,
          unexpected_packet "hello" packet = errorString text
          /\ strings.Contains text "unexpected packet" = true
          /\ strings.Contains text (fmt.d packet) = true).
Proof.
  intros cfg sent srv name major minor revision x chain packet e rest
         Hhello Hexception conn answered.
  subst conn answered.
  apply N.eqb_neq in Hhello, Hexception.
  split; [|split; [|split; [|split]]].
  - unfold hello, WithWriter, WithReader. cbn. switch. reflexivity.
  - unfold hello, WithWriter, WithReader.
    cbn [cn_flush cn_rd cn_sent cn_ServerInfo rd_Uvarint].
    switch. rewrite readException_payload. reflexivity.
  - unfold hello, WithWriter, WithReader.
    cbn [cn_flush cn_rd cn_sent cn_ServerInfo rd_Uvarint].
    rewrite Hhello, Hexception. reflexivity.
  - reflexivity.
  - apply unexpected_packet_text.
Qed.

(** *** The loops on the packets they pass over *)

(** X5: [readSampleBlock] passes over table-columns packets and returns the
    block of the first data packet, decoded into a new block; what follows
    that packet is left unread. *)
Theorem readSampleBlock_first_block :
  forall (ps : list packet) (tableName : string) (info : BlockInfo)
         (numRow : N) (columns : list ColumnData) (rest : Reader),
    forallb is_TableColumns ps = true ->
    well_formed (Data tableName info numRow columns) ->
    readSampleBlock
      (stream_payload (ps ++ [Data tableName info numRow columns]) ++ rest)
    = (rest,
       (Some {| NumColumn := Z.of_nat (List.length columns);
                NumRow := int_of_uint64 numRow;
                Columns := map column_of columns |},
        None)).
Proof.
  intros ps tableName info numRow columns rest Hps [Hlen Hcols].
  unfold stream_payload. rewrite flat_map_app, <- app_assoc.
  fold (stream_payload ps). rewrite readSampleBlock_skip by exact Hps.
  cbn [flat_map packet_payload app]. rewrite app_nil_r.
  rewrite readSampleBlock_unfold. unfold readSampleBlock_body.
  cbn [rd_Uvarint]. switch.
  rewrite readBlock_payload by assumption. reflexivity.
Qed.

(** X6: [readSampleBlock] handles data, table-columns and exception packets
    only: any other opcode, the end of the stream, progress and profile
    info included, ends it with an "unexpected packet" error and no
    block, also after table-columns packets. *)
Theorem readSampleBlock_rejects_other_packets :
  forall (ps : list packet) (packet : N) (rest : Reader),
    forallb is_TableColumns ps = true ->
    packet <> ServerData ->
    packet <> ServerTableColumns ->
    packet <> ServerException ->
    readSampleBlock (stream_payload ps ++ Uvarint_ packet :: rest)
    = (rest, (None, Some (unexpected_packet "readSampleBlock" packet)))
    /\ readSampleBlock
         (stream_payload ps ++ Uvarint_ ServerEndOfStream :: rest)
       = (rest,
          (None,
           Some (unexpected_packet "readSampleBlock" ServerEndOfStream)))
    /\ readSampleBlock
         (stream_payload ps ++ Uvarint_ ServerProgress :: rest)
       = (rest,
          (None, Some (unexpected_packet "readSampleBlock" ServerProgress)))
    /\ readSampleBlock
         (stream_payload ps ++ Uvarint_ ServerProfileInfo :: rest)
       = (rest,
          (None,
           Some (unexpected_packet "readSampleBlock" ServerProfileInfo))).
Proof.
  intros ps packet rest Hps Hdata Htable Hexception.
  apply N.eqb_neq in Hdata, Htable, Hexception.
  rewrite !readSampleBlock_skip by exact Hps.
  repeat split; rewrite readSampleBlock_unfold;
    unfold readSampleBlock_body; cbn [rd_Uvarint];
    try rewrite Hdata, Htable, Hexception; switch; reflexivity.
Qed.

(** X7: [readPacket] reads one packet.  A progress, profile-info or
    table-columns packet and the end of the stream give a new result with
    no rows affected, the reader being left right after the packet; a data
    packet is not handled and gives an "unexpected packet" error. *)
Theorem readPacket_one_packet :
  forall (p : packet) (rest : Reader),
    is_Data p = false ->
    readPacket (packet_payload p ++ rest)
    = (rest, (Some {| affected := 0 |}, None))
    /\ readPacket (Uvarint_ ServerEndOfStream :: rest)
       = (rest, (Some {| affected := 0 |}, None))
    /\ readPacket (Uvarint_ ServerData :: rest)
       = (rest, (None, Some (unexpected_packet "readPacket" ServerData))).
Proof.
  intros p rest Hp. split; [|split].
  - destruct p; try discriminate;
      unfold readPacket; cbn [packet_payload app rd_Uvarint]; switch;
      reflexivity.
  - unfold readPacket. cbn [rd_Uvarint]. switch. reflexivity.
  - unfold readPacket. cbn [rd_Uvarint]. switch. reflexivity.
Qed.

(** X8: [readPong] succeeds exactly on a pong and on the end of the
    stream, having read the opcode and nothing more; on every other script
    it returns an error. *)
Theorem readPong_nil_iff :
  forall (rd rest : Reader),
    readPong rd = (rest, None)
    <-> (rd = Uvarint_ ServerPong :: rest
         \/ rd = Uvarint_ ServerEndOfStream :: rest).
Proof.
  intros rd rest. split.
  - rewrite readPong_unfold. unfold readPong_body.
    destruct rd as [|[] rd]; cbn [rd_Uvarint]; try discriminate.
    destruct (N.eqb_spec v ServerPong) as [->|_].
    { intros H. inversion H. left. reflexivity. }
    destruct (N.eqb_spec v ServerException) as [->|_].
    { intros H. pose proof (readException_not_nil rd) as Hnil.
      rewrite H in Hnil. contradiction. }
    destruct (N.eqb_spec v ServerEndOfStream) as [->|_].
    { intros H. inversion H. right. reflexivity. }
    discriminate.
  - intros [->| ->]; rewrite readPong_unfold; unfold readPong_body;
      cbn [rd_Uvarint]; switch; reflexivity.
Qed.


Lemma add_int_wrap (x r : Z) :
  add_int (wrap_int x) r = wrap_int (x + r).
Proof.
  unfold add_int, wrap_int. f_equal.
  replace ((x + 2 ^ 63) mod 2 ^ 64 - 2 ^ 63 + r + 2 ^ 63)%Z
    with ((x + 2 ^ 63) mod 2 ^ 64 + r)%Z by lia.
  rewrite Zplus_mod_idemp_l. f_equal. lia.
Qed.

Lemma affected_after_wrapped ps :
  forall x,
    affected_after (Some {| affected := wrap_int x |}) ps
    = Some {| affected := wrap_int (x + total_int ps) |}.
Proof.
  induction ps as [|p ps IH]; intros x.
  - cbn. rewrite Z.add_0_r. reflexivity.
  - cbn [affected_after total_int fold_right]. fold (total_int ps).
    destruct p; cbn [is_Data rows_of affected].
    + rewrite add_int_wrap, IH. rewrite Z.add_assoc. reflexivity.
    + rewrite IH. reflexivity.
    + rewrite IH. reflexivity.
    + rewrite IH. reflexivity.
Qed.

Lemma affected_after_None ps :
  affected_after None ps
  = if existsb is_Data ps
    then Some {| affected := wrap_int (total_int ps) |}
    else None.
Proof.
  induction ps as [|p ps IH]; [reflexivity|].
  cbn [affected_after total_int fold_right existsb]. fold (total_int ps).
  destruct p; cbn [is_Data rows_of orb];
    try (rewrite IH; destruct (existsb is_Data ps); reflexivity).
  change (add_int 0 (int_of_uint64 numRow))
    with (wrap_int (int_of_uint64 numRow)).
  apply affected_after_wrapped.
Qed.

(** X10: without any bound on the row counts, the result of
    [readDataBlocks] counts the rows as [int] arithmetic does: every row
    count is converted to an [int] and the sum is taken on 64 bits, two's
    complement. *)
Theorem readDataBlocks_affected_wraps :
  forall (ps : list packet) (rest : Reader),
    Forall well_formed ps ->
    readDataBlocks (stream_payload ps ++ Uvarint_ ServerEndOfStream :: rest)
    = (rest,
       (if existsb is_Data ps
        then Some {| affected := wrap_int (total_int ps) |}
        else None,
        None)).
Proof.
  intros ps rest Hwf. unfold readDataBlocks.
  destruct (readDataBlocks_from_skip ps None newBlock
              (Uvarint_ ServerEndOfStream :: rest) Hwf) as [block' ->].
  rewrite readDataBlocks_from_EndOfStream, affected_after_None.
  reflexivity.
Qed.

(** X11: a pull on an open iterator passes over progress, profile-info and
    table-columns packets and, at a data packet, decodes it into the
    caller's block and returns true: the iterator stays open on the same
    connection, read up to the end of that packet, and nothing is released
    to the pool. *)
Theorem Next_data_packet :
  forall (db : Pool) (c : Conn) (sticky : option error)
         (ps : list packet) (tableName : string) (info : BlockInfo)
         (numRow : N) (columns : list ColumnData) (rest : Reader)
         (block : Block),
    forallb (fun p => negb (is_Data p)) ps = true ->
    well_formed (Data tableName info numRow columns) ->
    Next db
      {| cn :=
           Some (set_rd c
                   (stream_payload
                      (ps ++ [Data tableName info numRow columns])
                    ++ rest));
         stickyErr := sticky |}
      block
    = (db,
       {| cn := Some (set_rd c rest); stickyErr := sticky |},
       {| NumColumn := Z.of_nat (List.length columns);
          NumRow := int_of_uint64 numRow;
          Columns := Columns block ++ map column_of columns |},
       true).
Proof.
  intros db c sticky ps tableName info numRow columns rest block
         Hps [Hlen Hcols].
  unfold Next. cbn [cn cn_rd set_rd stickyErr].
  unfold stream_payload. rewrite flat_map_app, <- app_assoc.
  fold (stream_payload ps). rewrite blockIter_read_skip by exact Hps.
  cbn [flat_map packet_payload app]. rewrite app_nil_r.
  rewrite blockIter_read_unfold. unfold blockIter_read_body.
  cbn [rd_Uvarint]. switch.
  rewrite readBlock_payload by assumption. reflexivity.
Qed.

(** The connection of an iterator is the one it was created with, read
    further, and it has been released once the iterator is closed. *)
Lemma do_call_released db0 c st call :
  match cn (snd st) with
  | Some c' => released (fst st) = released db0
               /\ exists rd, c' = set_rd c rd
  | None => exists rd,
      released (fst st)
      = released db0 ++ [(set_rd c rd, stickyErr (snd st))]
  end ->
  match cn (snd (do_call st call)) with
  | Some c' => released (fst (do_call st call)) = released db0
               /\ exists rd, c' = set_rd c rd
  | None => exists rd,
      released (fst (do_call st call))
      = released db0 ++ [(set_rd c rd, stickyErr (snd (do_call st call)))]
  end.
Proof.
  destruct st as [db it]. cbn [fst snd]. intros Hinv.
  destruct call as [block|]; cbn [do_call fst snd].
  - destruct (cn it) as [c1|] eqn:Hc.
    + destruct Hinv as [Hrel [rd0 ->]].
      rewrite (Next_open db it _ block Hc).
      destruct (blockIter_read block (cn_rd (set_rd c rd0)))
        as [[rd block'] [ok [e|]]]; cbn.
      * exists rd. rewrite Hrel. reflexivity.
      * destruct ok; cbn.
        -- split; [exact Hrel|]. exists rd. reflexivity.
        -- exists rd. rewrite Hrel. reflexivity.
    + rewrite (Next_closed db it block Hc). cbn. rewrite Hc. exact Hinv.
  - unfold Close, close. destruct (cn it) as [c1|] eqn:Hc; cbn.
    + destruct Hinv as [Hrel [rd0 ->]]. exists rd0. rewrite Hrel.
      reflexivity.
    + rewrite Hc. exact Hinv.
Qed.

(** X12: over any sequence of [Next] and [Close] calls on a new iterator,
    the connection is released to the pool at most once: not while the
    iterator is open, and exactly once when it is closed, together with
    the sticky error, so that a connection that met an error is never
    handed back as healthy. *)
Theorem blockIter_released_once :
  forall (db : Pool) (c : Conn) (calls : list call),
    match cn (snd (after db c calls)) with
    | Some c' =>
        released (fst (after db c calls)) = released db
        /\ exists rd, c' = set_rd c rd
    | None =>
        exists rd,
          released (fst (after db c calls))
          = released db
            ++ [(set_rd c rd, Err (snd (after db c calls)))]
    end.
Proof.
  intros db c calls. unfold after, Err.
  assert (Hstart :
            match cn (snd (db, newBlockIter c)) with
            | Some c' => released (fst (db, newBlockIter c)) = released db
                         /\ exists rd, c' = set_rd c rd
            | None => exists rd,
                released (fst (db, newBlockIter c))
                = released db
                  ++ [(set_rd c rd, stickyErr (snd (db, newBlockIter c)))]
            end).
  { cbn. split; [reflexivity|]. exists (cn_rd c). destruct c; reflexivity. }
  revert Hstart. generalize (db, newBlockIter c).
  induction calls as [|call calls IH]; intros st Hst; cbn [fold_left].
  - exact Hst.
  - apply IH, do_call_released, Hst.
Qed.

End DispatchFacts.

(* ------------------------------------------------------------------------- *)
(** ** Settings *)

Section SettingsFacts.
Import ch.

Lemma writeSettings_range_app before tail wr :
  forallb supported (map snd before) = true ->
  writeSettings_range (before ++ tail) wr
  = writeSettings_range tail (wr ++ flat_map setting_written before).
Proof.
  revert wr. induction before as [|[key v] before IH]; intros wr Hsup.
  - simpl. rewrite app_nil_r. reflexivity.
  - cbn [map snd forallb] in Hsup. apply andb_prop in Hsup.
    destruct Hsup as [Hv Hsup].
    destruct v; try discriminate;
      cbn [app writeSettings_range flat_map setting_written fst snd];
      unfold wr_String, wr_Uvarint, wr_Bool;
      rewrite IH by exact Hsup; rewrite <- !app_assoc; reflexivity.
Qed.

(** C7, as the code has it: [writeSettings] has cases for text, [int],
    [int64], [uint64] and boolean values.  When all values are of these
    kinds, every setting is written as its key and its value and the whole
    is ended by an empty string.  At the first setting of another type the
    call panics: the settings before it and the key of that setting have
    been written to the writer by then, its value and the ending empty
    string have not. *)
Theorem writeSettings_kinds :
  forall (cfg : Config) (before after : list (string * value))
         (key typeName : string) (wr : Writer),
    forallb supported (map snd before) = true ->
    writeSettings (with_settings cfg before) wr
    = (wr ++ flat_map setting_written before ++ [wString ""], None)
    /\ writeSettings
         (with_settings cfg (before ++ (key, VOther typeName) :: after)) wr
       = (wr ++ flat_map setting_written before ++ [wString key],
          Some (errorString
                  (key ++ " setting has unsupported type: " ++ typeName)
                  %string)).
Proof.
  intros cfg before after key typeName wr Hsup.
  unfold writeSettings, with_settings. cbn [QuerySettings]. split.
  - rewrite <- (app_nil_r before) at 1.
    rewrite writeSettings_range_app by exact Hsup.
    cbn [writeSettings_range]. unfold wr_String.
    rewrite <- app_assoc. reflexivity.
  - rewrite writeSettings_range_app by exact Hsup.
    cbn [writeSettings_range]. unfold wr_String.
    rewrite <- app_assoc. reflexivity.
Qed.

(** C7 as stated fails: when the value of a setting has an unsupported
    type, the key of that setting is in the writer before the panic. *)
Lemma writeSettings_key_written_before_panic :
  writeSettings
    {| Database := "default"; User := "default"; Password := "";
       QuerySettings := [("max_threads"%string, VOther "float64")] |}
    []
  = ([wString "max_threads"],
     Some (errorString "max_threads setting has unsupported type: float64")).
Proof. reflexivity. Qed.

Lemma writeSettings_kinds_witness :
  writeSettings
    {| Database := "default"; User := "default"; Password := "";
       QuerySettings :=
         [("max_threads"%string, VInt 4);
          ("log_queries"%string, VBool true)] |}
    []
  = ([wString "max_threads"; wUvarint 4; wString "log_queries"; wBool true;
      wString ""],
     None).
Proof.
  exact (proj1 (writeSettings_kinds
                  {| Database := "default"; User := "default";
                     Password := ""; QuerySettings := [] |}
                  [("max_threads"%string, VInt 4);
                   ("log_queries"%string, VBool true)]
                  [] "" "" [] eq_refl)).
Defined.

Lemma writeSettings_range_extends settings :
  forall wr,
    exists more, fst (writeSettings_range settings wr) = wr ++ more.
Proof.
  induction settings as [|[key v] settings IH]; intros wr.
  - exists []. cbn. rewrite app_nil_r. reflexivity.
  - cbn [writeSettings_range].
    destruct v;
      try (match goal with
           | |- context [writeSettings_range settings ?w] =>
               destruct (IH w) as [more Hmore]; rewrite Hmore
           end;
           unfold wr_String, wr_Uvarint, wr_Bool;
           rewrite <- !app_assoc; eexists; reflexivity).
    unfold wr_String. eexists. reflexivity.
Qed.

Lemma writeSettings_supported cfg settings wr :
  forallb supported (map snd settings) = true ->
  writeSettings (with_settings cfg settings) wr
  = (wr ++ flat_map setting_written settings ++ [wString ""], None).
Proof.
  intros Hsup. unfold writeSettings, with_settings. cbn [QuerySettings].
  rewrite <- (app_nil_r settings) at 1.
  rewrite writeSettings_range_app by exact Hsup.
  cbn [writeSettings_range]. unfold wr_String.
  rewrite <- app_assoc. reflexivity.
Qed.

Lemma writeSettings_unsupported cfg before after key typeName wr :
  forallb supported (map snd before) = true ->
  writeSettings
    (with_settings cfg (before ++ (key, VOther typeName) :: after)) wr
  = (wr ++ flat_map setting_written before ++ [wString key],
     Some (errorString
             (key ++ " setting has unsupported type: " ++ typeName)
             %string)).
Proof.
  intros Hsup. unfold writeSettings, with_settings. cbn [QuerySettings].
  rewrite writeSettings_range_app by exact Hsup.
  cbn [writeSettings_range]. unfold wr_String.
  rewrite <- app_assoc. reflexivity.
Qed.

(** X13: [writeSettings] does not reject an empty key.  The empty string
    written for that key is what ends a settings block: the output for
    settings that contain an empty key begins with the complete output for
    the settings before it, so that a reader stops there and never sees
    that setting nor those after it. *)
Theorem writeSettings_empty_key :
  forall (cfg : Config) (before after : list (string * value))
         (v : value) (wr : Writer),
    forallb supported (map snd before) = true ->
    exists more,
      fst (writeSettings (with_settings cfg (before ++ (""%string, v) :: after))
                         wr)
      = fst (writeSettings (with_settings cfg before) wr) ++ more.
Proof.
  intros cfg before after v wr Hsup.
  rewrite (writeSettings_supported cfg before wr Hsup).
  cbn [fst]. unfold writeSettings, with_settings. cbn [QuerySettings].
  rewrite writeSettings_range_app by exact Hsup.
  set (w := wr ++ flat_map setting_written before).
  assert (Hstep :
            exists more,
              fst (writeSettings_range ((""%string, v) :: after) w)
              = w ++ wString "" :: more).
  { cbn [writeSettings_range]. unfold wr_String.
    destruct v;
      try (match goal with
           | |- context [writeSettings_range after ?w'] =>
               destruct (writeSettings_range_extends after w')
                 as [more Hmore]; rewrite Hmore
           end;
           unfold wr_String, wr_Uvarint, wr_Bool;
           rewrite <- !app_assoc; eexists; reflexivity).
    exists []. reflexivity. }
  destruct Hstep as [more Hmore].
  destruct (writeSettings_range ((""%string, v) :: after) w)
    as [w' [panic|]]; cbn [fst] in *; subst w'.
  - exists more. subst w. rewrite <- !app_assoc. reflexivity.
  - exists (more ++ [wString ""]). unfold wr_String. subst w.
    rewrite <- !app_assoc. reflexivity.
Qed.

Lemma setting_written_as_uint64 kv :
  setting_written (fst kv, as_uint64 (snd kv)) = setting_written kv.
Proof. destruct kv as [key []]; reflexivity. Qed.

Lemma writeSettings_range_as_uint64 settings :
  forall wr,
    writeSettings_range
      (map (fun kv => (fst kv, as_uint64 (snd kv))) settings) wr
    = writeSettings_range settings wr.
Proof.
  induction settings as [|[key v] settings IH]; intros wr; [reflexivity|].
  cbn [map fst snd]. destruct v; cbn [as_uint64 writeSettings_range];
    try rewrite IH; reflexivity.
Qed.

(** X14: the sign of an integer setting is not written.  An [int] or
    [int64] value goes out as the unsigned 64-bit number with the same
    bits, so a negative value [v] is written as [2^64 + v], and the
    output is the same as if every signed value had been given as that
    [uint64]. *)
Theorem writeSettings_signed_as_unsigned :
  forall (cfg : Config) (settings : list (string * value)) (wr : Writer)
         (v : Z),
    writeSettings
      (with_settings cfg
         (map (fun kv => (fst kv, as_uint64 (snd kv))) settings)) wr
    = writeSettings (with_settings cfg settings) wr
    /\ ((- 2 ^ 63 <= v < 0)%Z ->
        uint64_of_int v = Z.to_N (2 ^ 64 + v)
        /\ (2 ^ 63 <= Z.of_N (uint64_of_int v))%Z)
    /\ ((0 <= v < 2 ^ 63)%Z -> uint64_of_int v = Z.to_N v).
Proof.
  intros cfg settings wr v. split; [|split].
  - unfold writeSettings, with_settings. cbn [QuerySettings].
    rewrite writeSettings_range_as_uint64. reflexivity.
  - intros Hneg. unfold uint64_of_int.
    replace (v mod 2 ^ 64)%Z with (2 ^ 64 + v)%Z.
    + split; [reflexivity|]. rewrite Z2N.id by lia. lia.
    + symmetry. rewrite <- (Z_mod_plus_full v 1 (2 ^ 64)).
      rewrite Z.mod_small by lia. lia.
  - intros Hpos. unfold uint64_of_int. rewrite Z.mod_small by lia.
    reflexivity.
Qed.

(** X15: [writeQuery] writes the fixed request header, then the settings
    ended by an empty string, then the stage 2, the compression flag and
    last the query text.  The host name in the header is the cached one
    when there is one, else the one resolved by this call, which stays
    cached.  When a setting has an unsupported type the call panics right
    after that setting's key: stage, compression flag and query text are
    not written. *)
Theorem writeQuery_layout :
  forall (consts : QueryConstants) (os_Hostname hostname : string)
         (cfg : Config) (before after : list (string * value))
         (key typeName : string) (wr : Writer) (query : string),
    forallb supported (map snd before) = true ->
    let resolved :=
      if String.eqb hostname "" then os_Hostname else hostname in
    writeQuery os_Hostname hostname (with_settings cfg before) wr query
    = (resolved,
       wr ++ query_header resolved ++ flat_map setting_written before
          ++ [wString ""; wUvarint 2; wUvarint CompressionEnabled;
              wString query],
       None)
    /\ writeQuery os_Hostname hostname
         (with_settings cfg (before ++ (key, VOther typeName) :: after))
         wr query
       = (resolved,
          wr ++ query_header resolved ++ flat_map setting_written before
             ++ [wString key],
          Some (errorString
                  (key ++ " setting has unsupported type: " ++ typeName)
                  %string)).
Proof.
  intros consts os_Hostname hostname cfg before after key typeName wr query
         Hsup resolved.
  subst resolved. unfold writeQuery. split.
  - rewrite (writeSettings_supported cfg before _ Hsup).
    unfold writeClientInfo, wr_Uvarint, wr_String, query_header.
    rewrite <- !app_assoc. reflexivity.
  - rewrite (writeSettings_unsupported cfg before after key typeName _ Hsup).
    unfold writeClientInfo, wr_Uvarint, wr_String, query_header.
    rewrite <- !app_assoc. reflexivity.
Qed.

End SettingsFacts.

(* ------------------------------------------------------------------------- *)
(** ** The migration runner *)

Section MigrateFacts.
Import chmigrate.

(** A step whose [Up] fails, in the default mode: the step is marked
    applied and the loop stops, but the error returned is the one of
    [MarkApplied], not the one of [Up]. *)
Lemma Migrate_range_failure_default m nop groupID db db1 done migration
      rest up e :
  applyOnSuccess m = false ->
  Up migration = Some up ->
  up db = (db1, Some e) ->
  Migrate_range m nop groupID db done (migration :: rest)
  = let '(db2, marked, applyErr) :=
      MarkApplied m db1 (set_GroupID migration groupID) in
    (db2, Returns (done ++ marked :: rest, applyErr)).
Proof.
  intros Hmode Hup Hfail. cbn [Migrate_range].
  cbn [Up set_GroupID]. rewrite Hup, Hmode. cbn [is_nil negb orb].
  rewrite orb_true_r. rewrite Hfail. cbn [is_nil negb andb].
  destruct (MarkApplied m db1 (set_GroupID migration groupID))
    as [[db2 marked] applyErr].
  reflexivity.
Qed.

(** The same step when only successful migrations are to be marked: the
    loop stops with the error of [Up] and nothing is recorded. *)
Lemma Migrate_range_failure_applyOnSuccess m nop groupID db db1 done
      migration rest up e :
  applyOnSuccess m = true ->
  Up migration = Some up ->
  up db = (db1, Some e) ->
  Migrate_range m nop groupID db done (migration :: rest)
  = (db1, Returns (done ++ set_GroupID migration groupID :: rest, Some e)).
Proof.
  intros Hmode Hup Hfail. cbn [Migrate_range].
  cbn [Up set_GroupID]. rewrite Hup, Hmode. cbn [is_nil negb orb].
  rewrite orb_true_r. rewrite Hfail. reflexivity.
Qed.

Lemma Rollback_range_failure_default m db db1 done migration rest down e :
  applyOnSuccess m = false ->
  Down migration = Some down ->
  down db = (db1, Some e) ->
  Rollback_range m false db (migration :: rest) done
  = let '(db2, marked, unapplyErr) := MarkUnapplied m db1 migration in
    (db2, (rev rest ++ marked :: done, unapplyErr)).
Proof.
  intros Hmode Hdown Hfail. cbn [Rollback_range].
  rewrite Hdown, Hmode. cbn [is_nil negb andb]. rewrite Hfail.
  cbn [is_nil negb andb].
  destruct (MarkUnapplied m db1 migration) as [[db2 marked] unapplyErr].
  reflexivity.
Qed.

Lemma Rollback_range_failure_applyOnSuccess m db db1 done migration rest
      down e :
  applyOnSuccess m = true ->
  Down migration = Some down ->
  down db = (db1, Some e) ->
  Rollback_range m false db (migration :: rest) done
  = (db1, (rev rest ++ migration :: done, Some e)).
Proof.
  intros Hmode Hdown Hfail. cbn [Rollback_range].
  rewrite Hdown, Hmode. cbn [is_nil negb andb]. rewrite Hfail.
  reflexivity.
Qed.

(** C8 on the code: in the default mode a step whose [Up] (or [Down])
    fails is marked applied (or unapplied) and the loop stops, but the
    error returned is nil, the step's failure is lost; with
    [WithApplyOnSuccess] the loop stops with the step's failure and
    records nothing. *)
Theorem Migrate_failed_step_returns_nil :
  let group := [migration "m1" fails succeeds;
                migration "m2" succeeds succeeds] in
  let up := Migrate_group NewMigrator false 1 accepting group in
  let up_strict :=
    Migrate_group (WithApplyOnSuccess NewMigrator) false 1 accepting group in
  let last_group := [migration "m1" succeeds succeeds;
                     migration "m2" succeeds fails] in
  let down := Rollback_group NewMigrator false accepting last_group in
  let down_strict :=
    Rollback_group (WithApplyOnSuccess NewMigrator) false accepting
                   last_group in
  (inserted (fst up)
   = [{| row_table := "ch_migrations"; row_name := "m1";
         row_group_id := 1; row_sign := 1 |}]
   /\ match snd up with
      | Returns (migrations, err) =>
          map Name migrations = ["m1"; "m2"]%string /\ err = None
      | Panics => False
      end)
  /\ (inserted (fst up_strict) = []
      /\ match snd up_strict with
         | Returns (_, err) => err = Some (dbError "boom")
         | Panics => False
         end)
  /\ (inserted (fst down)
      = [{| row_table := "ch_migrations"; row_name := "m2";
            row_group_id := 0; row_sign := (-1) |}]
      /\ snd (snd down) = None)
  /\ (inserted (fst down_strict) = []
      /\ snd (snd down_strict) = Some (dbError "boom")).
Proof. cbv. repeat split. Qed.

(** C9: [Lock] returns nil when the column is added and, when adding it
    fails for whatever reason, an error that says "already locked" and wraps
    the failure.  [Unlock] returns nil when the column is dropped and when
    dropping it fails with an error containing "Cannot find column"; for
    any other failure it returns an error that says "already unlocked" and
    wraps the failure. *)
Theorem Lock_Unlock_errors :
  forall (m : Migrator) (db : DB) (err : error),
    let add :=
      ExecContext db "ALTER TABLE ? ADD COLUMN ? Int8"
                  [locksTable m; "lock"%string] in
    let drop :=
      ExecContext db "ALTER TABLE ? DROP COLUMN ?"
                  [locksTable m; "lock"%string] in
    (add = None -> Lock m db = None)
    /\ (add = Some err ->
        exists e,
          Lock m db = Some e
          /\ strings.Contains (Error e) "already locked" = true
          /\ strings.Contains (Error e) (Error err) = true
          /\ Unwrap e = Some err)
    /\ (drop = None -> Unlock m db = None)
    /\ (drop = Some err ->
        strings.Contains (Error err) "Cannot find column" = true ->
        Unlock m db = None)
    /\ (drop = Some err ->
        strings.Contains (Error err) "Cannot find column" = false ->
        exists e,
          Unlock m db = Some e
          /\ strings.Contains (Error e) "already unlocked" = true
          /\ strings.Contains (Error e) (Error err) = true
          /\ Unwrap e = Some err).
Proof.
  intros m db err add drop. subst add drop. unfold Lock, Unlock.
  split; [|split; [|split; [|split]]].
  - intros ->. reflexivity.
  - intros ->. eexists. split; [reflexivity|]. split; [|split].
    + cbn [Error].
      apply Contains_app
        with (a := "chmigrate: migrations table is "%string)
             (b := "already locked"%string).
    + cbn [Error]. apply Contains_app.
    + reflexivity.
  - intros ->. reflexivity.
  - intros -> Hfound. rewrite Hfound. reflexivity.
  - intros -> Hother. rewrite Hother.
    eexists. split; [reflexivity|]. split; [|split].
    + cbn [Error].
      apply Contains_app
        with (a := "chmigrate: migrations table is "%string)
             (b := "already unlocked"%string).
    + cbn [Error]. apply Contains_app.
    + reflexivity.
Qed.

(** Scenario D: locking a locked table is refused as "already locked",
    unlocking an unlocked table succeeds. *)
Lemma Lock_Unlock_errors_witness :
  (exists e,
     Lock NewMigrator (lock_column true) = Some e
     /\ strings.Contains (Error e) "already locked" = true)
  /\ Unlock NewMigrator (lock_column false) = None.
Proof.
  split.
  - destruct (Lock_Unlock_errors NewMigrator (lock_column true)
                (dbError
                   "DB::Exception: Cannot add column lock: column with this name already exists"))
      as (_ & Hlock & _).
    destruct (Hlock eq_refl) as (e & He & Htext & _).
    exists e. split; assumption.
  - destruct (Lock_Unlock_errors NewMigrator (lock_column false)
                (dbError
                   "DB::Exception: Wrong column name. Cannot find column `lock` to drop"))
      as (_ & _ & _ & Hunlock & _).
    apply Hunlock; reflexivity.
Defined.

(** *** The loops when the steps succeed *)

Lemma Migrate_range_success m nop groupID todo :
  forall db done,
    Forall (fun migration => Up migration <> None /\ quiet (Up migration))
           todo ->
    (forall row, insertErr db row = None) ->
    Migrate_range m nop groupID db done todo
    = (with_inserted db
         (map (fun migration => row_of m (applied_in groupID migration))
              todo),
       Returns (done ++ map (applied_in groupID) todo, None)).
Proof.
  induction todo as [|migration todo IH]; intros db done Hups Hins.
  - cbn. unfold with_inserted. rewrite !app_nil_r.
    destruct db; reflexivity.
  - inversion Hups as [|? ? [Hset Hquiet] Hrest]; subst.
    cbn [Migrate_range]. cbn [Up set_GroupID].
    destruct (Up migration) as [up|] eqn:Hup; [|contradiction].
    cbn [is_nil negb]. rewrite orb_true_r.
    cbn [quiet] in Hquiet. rewrite Hquiet.
    cbn [is_nil negb andb]. unfold MarkApplied, Insert.
    rewrite Hins. cbn [is_nil negb].
    rewrite IH by (cbn; assumption).
    unfold with_inserted, applied_in. cbn [inserted insertErr execErr map].
    rewrite <- !app_assoc. reflexivity.
Qed.

Lemma Migrate_range_unrecorded m nop groupID todo :
  forall db done,
    Forall (fun migration => Up migration <> None /\ quiet (Up migration))
           todo ->
    (forall row, insertErr db row <> None) ->
    Migrate_range m nop groupID db done todo
    = (db, Returns (done ++ map (applied_in groupID) todo, None)).
Proof.
  induction todo as [|migration todo IH]; intros db done Hups Hins.
  - cbn. rewrite app_nil_r. reflexivity.
  - inversion Hups as [|? ? [Hset Hquiet] Hrest]; subst.
    cbn [Migrate_range]. cbn [Up set_GroupID].
    destruct (Up migration) as [up|] eqn:Hup; [|contradiction].
    cbn [is_nil negb]. rewrite orb_true_r.
    cbn [quiet] in Hquiet. rewrite Hquiet.
    cbn [is_nil negb andb]. unfold MarkApplied, Insert.
    match goal with
    | |- context [insertErr db ?row] =>
        specialize (Hins row) as Hrow; destruct (insertErr db row);
          [|contradiction]
    end.
    cbn [is_nil negb].
    rewrite IH by assumption.
    unfold applied_in. cbn [map]. rewrite <- !app_assoc. reflexivity.
Qed.

Lemma Rollback_range_success m nop todo :
  forall db done,
    nop = true \/ Forall (fun migration => quiet (Down migration)) todo ->
    (forall row, insertErr db row = None) ->
    Rollback_range m nop db todo done
    = (with_inserted db
         (map (fun migration => row_of m (unapplied migration)) todo),
       (rev (map unapplied todo) ++ done, None)).
Proof.
  induction todo as [|migration todo IH]; intros db done Hdowns Hins.
  - cbn. unfold with_inserted. rewrite app_nil_r. destruct db; reflexivity.
  - assert (Hrest : nop = true
                    \/ Forall (fun migration => quiet (Down migration)) todo).
    { destruct Hdowns as [Hnop|Hall]; [left; exact Hnop|right].
      inversion Hall; assumption. }
    assert (Hstep :
              Rollback_range m nop db (migration :: todo) done
              = Rollback_range m nop
                  (with_inserted db [row_of m (unapplied migration)])
                  todo (unapplied migration :: done)).
    { cbn [Rollback_range].
      destruct nop; cbn [negb andb].
      - unfold MarkUnapplied, Insert. rewrite Hins. reflexivity.
      - destruct Hdowns as [Hnop|Hall]; [discriminate|].
        inversion Hall as [|? ? Hquiet _]; subst.
        destruct (Down migration) as [down|]; cbn [is_nil negb].
        + cbn [quiet] in Hquiet. rewrite Hquiet. cbn [is_nil negb andb].
          unfold MarkUnapplied, Insert. rewrite Hins. reflexivity.
        + unfold MarkUnapplied, Insert. rewrite Hins. reflexivity. }
    rewrite Hstep, IH by (cbn; assumption).
    unfold with_inserted. cbn [inserted insertErr execErr map rev].
    rewrite <- !app_assoc. reflexivity.
Qed.

(** X16: when every [Up] succeeds and every insert is accepted, the loop of
    [Migrate] records one row per migration in the order of the group, with
    sign +1 and the identifier of the group, and returns all migrations so
    marked and no error. *)
Theorem Migrate_group_records_all :
  forall (m : Migrator) (nop : bool) (groupID : Z) (db : DB)
         (migrations : list Migration),
    Forall (fun migration => Up migration <> None /\ quiet (Up migration))
           migrations ->
    (forall row, insertErr db row = None) ->
    Migrate_group m nop groupID db migrations
    = (with_inserted db
         (map (fun migration =>
                 {| row_table := table m; row_name := Name migration;
                    row_group_id := groupID; row_sign := 1 |})
              migrations),
       Returns (map (applied_in groupID) migrations, None)).
Proof.
  intros m nop groupID db migrations Hups Hins. unfold Migrate_group.
  rewrite Migrate_range_success by assumption. reflexivity.
Qed.

(** X17: the loop of [Migrate] looks at the error of [MarkApplied] only
    when [Up] has failed.  When every [Up] succeeds and the database
    refuses every insert, the loop goes through all migrations and returns
    no error, although no row has been recorded. *)
Theorem Migrate_group_drops_insert_errors :
  forall (m : Migrator) (nop : bool) (groupID : Z) (db : DB)
         (migrations : list Migration),
    Forall (fun migration => Up migration <> None /\ quiet (Up migration))
           migrations ->
    (forall row, insertErr db row <> None) ->
    Migrate_group m nop groupID db migrations
    = (db, Returns (map (applied_in groupID) migrations, None)).
Proof.
  intros m nop groupID db migrations Hups Hins. unfold Migrate_group.
  rewrite Migrate_range_unrecorded by assumption. reflexivity.
Qed.

(** X18: the test [!cfg.nop || migration.Up != nil] of [Migrate].  Without
    nop, a migration whose [Up] is nil makes the loop panic before anything
    is recorded for it.  With nop, such a migration is marked applied
    without anything being run, whereas an [Up] that is set is still run:
    its failure ends the loop as it does without nop. *)
Theorem Migrate_nil_Up_and_nop :
  forall (m : Migrator) (groupID : Z) (db db1 : DB)
         (done rest : list Migration) (migration : Migration)
         (up : MigrationFunc) (e : error),
    (Up migration = None ->
     Migrate_range m false groupID db done (migration :: rest) = (db, Panics)
     /\ Migrate_range m true groupID db done (migration :: rest)
        = let '(db', marked, _) :=
            MarkApplied m db (set_GroupID migration groupID) in
          Migrate_range m true groupID db' (done ++ [marked]) rest)
    /\ (Up migration = Some up ->
        up db = (db1, Some e) ->
        applyOnSuccess m = true ->
        Migrate_range m true groupID db done (migration :: rest)
        = (db1,
           Returns (done ++ set_GroupID migration groupID :: rest, Some e))).
Proof.
  intros m groupID db db1 done rest migration up e. split.
  - intros Hup. split.
    + cbn [Migrate_range]. cbn [Up set_GroupID]. rewrite Hup. reflexivity.
    + cbn [Migrate_range]. cbn [Up set_GroupID]. rewrite Hup.
      cbn [is_nil negb orb].
      destruct (MarkApplied m db (set_GroupID migration groupID))
        as [[db' marked] applyErr].
      reflexivity.
  - intros Hup Hfail Hmode.
    apply (Migrate_range_failure_applyOnSuccess m true groupID db db1 done
             migration rest up e Hmode Hup Hfail).
Qed.

(** X19: when every [Down] that is run succeeds and every insert is
    accepted, the loop of [Rollback] records one row with sign -1 per
    migration of the group, last migration first, and returns the group in
    its own order with every migration marked.  With nop no [Down] is run:
    the result does not depend on them. *)
Theorem Rollback_group_records_reversed :
  forall (m : Migrator) (nop : bool) (db : DB)
         (migrations : list Migration),
    nop = true
    \/ Forall (fun migration => quiet (Down migration)) migrations ->
    (forall row, insertErr db row = None) ->
    Rollback_group m nop db migrations
    = (with_inserted db
         (rev (map (fun migration =>
                      {| row_table := table m; row_name := Name migration;
                         row_group_id := GroupID migration;
                         row_sign := (-1) |})
                   migrations)),
       (map unapplied migrations, None)).
Proof.
  intros m nop db migrations Hdowns Hins. unfold Rollback_group.
  rewrite Rollback_range_success.
  - rewrite !map_rev, rev_involutive, app_nil_r. reflexivity.
  - destruct Hdowns as [Hnop|Hall]; [left; exact Hnop|right].
    apply Forall_rev. exact Hall.
  - exact Hins.
Qed.

(** *** Migrate and Rollback around the loops *)

Lemma Lock_refused m db err :
  ExecContext db "ALTER TABLE ? ADD COLUMN ? Int8"
              [locksTable m; "lock"%string] = Some err ->
  Lock m db
  = Some (wrapError "chmigrate: migrations table is already locked ("
                    err ")").
Proof. intros H. unfold Lock. rewrite H. reflexivity. Qed.

Lemma Lock_granted m db :
  ExecContext db "ALTER TABLE ? ADD COLUMN ? Int8"
              [locksTable m; "lock"%string] = None ->
  Lock m db = None.
Proof. intros H. unfold Lock. rewrite H. reflexivity. Qed.

(** X20: [Migrate] and [Rollback] do nothing without migrations or
    without the lock.  With no migration registered they return the error
    of [validate] and execute no statement; when the lock is refused they
    return the "already locked" error, having executed the statement that
    takes the lock and nothing else: no migration is run, no row is
    inserted, and the lock that somebody else holds is not dropped. *)
Theorem Migrate_needs_migrations_and_lock :
  forall (m : Migrator) (ms : list Migration) (nop : bool)
         (migrationsWithStatus : DB -> list Migration * Z * option error)
         (Unapplied : list Migration -> list Migration)
         (MigrationsWithStatus : DB -> list Migration * option error)
         (LastGroup : list Migration -> MigrationGroup)
         (s : Session) (err : error),
    let none := dbError "chmigrate: there are no any migrations" in
    let locked :=
      wrapError "chmigrate: migrations table is already locked (" err ")" in
    (Migrate m [] nop migrationsWithStatus Unapplied s
     = (s, Returns (None, Some none))
     /\ Rollback m [] nop MigrationsWithStatus LastGroup s
        = (s, (None, Some none)))
    /\ (ms <> [] ->
        ExecContext (ses_db s) "ALTER TABLE ? ADD COLUMN ? Int8"
                    [locksTable m; "lock"%string] = Some err ->
        Migrate m ms nop migrationsWithStatus Unapplied s
        = (logged s "ALTER TABLE ? ADD COLUMN ? Int8",
           Returns (None, Some locked))
        /\ Rollback m ms nop MigrationsWithStatus LastGroup s
           = (logged s "ALTER TABLE ? ADD COLUMN ? Int8",
              (None, Some locked))).
Proof.
  intros m ms nop migrationsWithStatus Unapplied MigrationsWithStatus
         LastGroup s err none locked.
  subst none locked. split; [split; reflexivity|].
  intros Hms Hlock. destruct ms as [|migration ms]; [contradiction|].
  unfold Migrate, Rollback, Lock_in. cbn [validate].
  rewrite (Lock_refused m (ses_db s) err Hlock). split; reflexivity.
Qed.

(** X21: once the lock has been taken, [Migrate] and [Rollback] release it
    on every way out: whether the status cannot be read, nothing is left to
    apply, a step fails or a migration panics, the statements executed are
    the one that takes the lock followed by the one that drops it. *)
Theorem Migrate_releases_lock :
  forall (m : Migrator) (ms : list Migration) (nop : bool)
         (migrationsWithStatus : DB -> list Migration * Z * option error)
         (Unapplied : list Migration -> list Migration)
         (MigrationsWithStatus : DB -> list Migration * option error)
         (LastGroup : list Migration -> MigrationGroup)
         (s : Session),
    ms <> [] ->
    ExecContext (ses_db s) "ALTER TABLE ? ADD COLUMN ? Int8"
                [locksTable m; "lock"%string] = None ->
    executed (fst (Migrate m ms nop migrationsWithStatus Unapplied s))
    = executed s ++ ["ALTER TABLE ? ADD COLUMN ? Int8";
                     "ALTER TABLE ? DROP COLUMN ?"]%string
    /\ executed (fst (Rollback m ms nop MigrationsWithStatus LastGroup s))
       = executed s ++ ["ALTER TABLE ? ADD COLUMN ? Int8";
                        "ALTER TABLE ? DROP COLUMN ?"]%string.
Proof.
  intros m ms nop migrationsWithStatus Unapplied MigrationsWithStatus
         LastGroup s Hms Hlock.
  destruct ms as [|migration ms]; [contradiction|].
  unfold Migrate, Rollback, Lock_in, Unlock_in. cbn [validate].
  rewrite (Lock_granted m (ses_db s) Hlock).
  cbn [logged ses_db executed]. split.
  - destruct (migrationsWithStatus (ses_db s))
      as [[migrations lastGroupID] [err|]].
    + cbn. rewrite <- app_assoc. reflexivity.
    + destruct (Unapplied migrations) as [|first unapplied_].
      * cbn. rewrite <- app_assoc. reflexivity.
      * destruct (Migrate_group m nop (lastGroupID + 1) (ses_db s)
                    (first :: unapplied_)) as [db [[migs err]|]];
          cbn; rewrite <- app_assoc; reflexivity.
  - destruct (MigrationsWithStatus (ses_db s)) as [migrations [err|]].
    + cbn. rewrite <- app_assoc. reflexivity.
    + destruct (Rollback_group m nop (ses_db s)
                  (Migrations (LastGroup migrations)))
        as [db [migs err]].
      cbn. rewrite <- app_assoc. reflexivity.
Qed.

(** X22: when the lock is taken and no migration is unapplied, [Migrate]
    returns an empty group with the identifier 0 and no error; the
    database is as it was and the lock has been released. *)
Theorem Migrate_nothing_to_apply :
  forall (m : Migrator) (ms : list Migration) (nop : bool)
         (migrationsWithStatus : DB -> list Migration * Z * option error)
         (Unapplied : list Migration -> list Migration)
         (s : Session) (migrations : list Migration) (lastGroupID : Z),
    ms <> [] ->
    ExecContext (ses_db s) "ALTER TABLE ? ADD COLUMN ? Int8"
                [locksTable m; "lock"%string] = None ->
    migrationsWithStatus (ses_db s) = (migrations, lastGroupID, None) ->
    Unapplied migrations = [] ->
    Migrate m ms nop migrationsWithStatus Unapplied s
    = ({| ses_db := ses_db s;
          executed :=
            executed s ++ ["ALTER TABLE ? ADD COLUMN ? Int8";
                           "ALTER TABLE ? DROP COLUMN ?"]%string |},
       Returns (Some {| ID := 0; Migrations := [] |}, None)).
Proof.
  intros m ms nop migrationsWithStatus Unapplied s migrations lastGroupID
         Hms Hlock Hstatus Hnone.
  destruct ms as [|migration ms]; [contradiction|].
  unfold Migrate, Lock_in, Unlock_in. cbn [validate].
  rewrite (Lock_granted m (ses_db s) Hlock).
  cbn [logged ses_db executed]. rewrite Hstatus, Hnone.
  unfold logged. cbn [ses_db executed].
  rewrite <- app_assoc. reflexivity.
Qed.

End MigrateFacts.

(* ------------------------------------------------------------------------- *)
(** ** The scenarios of the specification, with ClickHouse's opcodes *)

Section Scenarios.
Import ch.

Lemma ten_rows_well_formed : well_formed ten_rows.
Proof.
  split; [reflexivity|].
  constructor; [split; discriminate|constructor].
Defined.

Lemma outside_255 : ~ In 255%N (@server_vocabulary clickhouse).
Proof. cbv. intuition discriminate. Defined.

(** Scenario B: three data packets of ten rows each, then the end of the
    stream: thirty rows affected. *)
Lemma readDataBlocks_affected_witness :
  @readDataBlocks clickhouse
    (@stream_payload clickhouse [ten_rows; ten_rows; ten_rows]
       ++ [Uvarint_ 5])
  = ([], (Some {| affected := 30 |}, None)).
Proof.
  apply (@readDataBlocks_affected clickhouse
           [ten_rows; ten_rows; ten_rows] []).
  - repeat (constructor; [exact ten_rows_well_formed|]). constructor.
  - reflexivity.
Defined.

(** Opcode 255 after a data packet, an exception after a data packet, and
    an exception after a table-columns packet in the sample-block loop: no
    result in any case. *)
Lemma dispatch_loops_abort_witness :
  @readDataBlocks clickhouse
    (@stream_payload clickhouse [ten_rows] ++ [Uvarint_ 255])
  = ([], (None,
          Some (errorString "ch: readDataBlocks: unexpected packet: 255")))
  /\ @readDataBlocks clickhouse
       (@stream_payload clickhouse [ten_rows]
          ++ Uvarint_ 2 :: exception_payload missing_table [])
     = ([], (None,
             Some (ErrorRef
                     (mkError 60 "DB::Exception"
                        "Table default.t doesn't exist" "" None))))
  /\ @readSampleBlock clickhouse
       (@stream_payload clickhouse
          [TableColumns "" "columns format version: 1"]
          ++ Uvarint_ 2 :: exception_payload missing_table [])
     = ([], (None,
             Some (ErrorRef
                     (mkError 60 "DB::Exception"
                        "Table default.t doesn't exist" "" None)))).
Proof.
  destruct (@dispatch_loops_abort clickhouse None newBlock
              [TableColumns "" "columns format version: 1"] [ten_rows]
              missing_table [] 255%N [] eq_refl
              (Forall_cons _ ten_rows_well_formed (Forall_nil _))
              outside_255)
    as ((Hsample & Hexception & _) & (_ & Hunexpected & _) & _).
  split; [exact Hunexpected|]. split; [exact Hexception|exact Hsample].
Defined.


(** Opcode 255 in answer to the client hello. *)
Lemma hello_reads_one_packet_witness :
  snd (@hello clickhouse
         {| Database := "default"; User := "default"; Password := "";
            QuerySettings := [] |}
         (conn [Uvarint_ 255; Uvarint_ 0]))
  = Some (errorString "ch: hello: unexpected packet: 255")
  /\ cn_rd (fst (@hello clickhouse
                   {| Database := "default"; User := "default";
                      Password := ""; QuerySettings := [] |}
                   (conn [Uvarint_ 255; Uvarint_ 0])))
     = [Uvarint_ 0].
Proof.
  destruct (@hello_reads_one_packet clickhouse
              {| Database := "default"; User := "default"; Password := "";
                 QuerySettings := [] |}
              [] {| srvName := ""; MajorVer := 0; MinorVer := 0;
                    Revision := 0 |}
              "" 0%N 0%N 0%N missing_table [] 255%N (readError "")
              [Uvarint_ 0]
              ltac:(discriminate) ltac:(discriminate))
    as (_ & _ & Hunexpected & _).
  unfold conn. rewrite Hunexpected. split; reflexivity.
Defined.

(** Scenario C: the second column of a block comes without a type. *)
Lemma readBlock_rejects_blank_witness :
  readBlock
    [String_ ""; Uvarint_ 1; Bool_ false; Uvarint_ 2; Int32_ (-1);
     Uvarint_ 0; Uvarint_ 2; Uvarint_ 1;
     String_ "id"; String_ "UInt64"; Column_ ["7"%string];
     String_ "name"; String_ ""; Column_ ["x"%string]]
    newBlock
  = ([Column_ ["x"%string]],
     {| NumColumn := 2; NumRow := 1;
        Columns := [{| colName := "id"; colType := "UInt64";
                       colValues := ["7"%string] |}] |},
     Some (errorString "ch: column=name has empty type")).
Proof.
  assert (Hbefore :
            Forall (fun c => wColName c <> ""%string
                             /\ wColType c <> ""%string)
                   [{| wColName := "id"; wColType := "UInt64";
                       wColValues := ["7"%string] |}])
    by (constructor; [split; discriminate|constructor]).
  assert (Hposition :
            List.length [{| wColName := "id"; wColType := "UInt64";
                            wColValues := ["7"%string] |}]
            < Z.to_nat (int_of_uint64 2))
    by (vm_compute; lia).
  assert (Hname : "name"%string <> ""%string) by discriminate.
  destruct (readBlock_rejects_blank "" info 2 1 _ "name"
              [Column_ ["x"%string]] newBlock Hbefore Hposition Hname)
    as (_ & Htype & _).
  exact Htype.
Defined.

End Scenarios.

(* ------------------------------------------------------------------------- *)
(** ** Migration names, files and status *)

Section NamesFacts.
Import chmigrate.

Lemma all_allowed_app (a b : string) :
  all_allowed (a ++ b) = all_allowed a && all_allowed b.
Proof.
  induction a as [|c a IH]; simpl; [reflexivity|].
  rewrite IH. apply andb_assoc.
Qed.

Lemma genMigrationName_accepts version quote name :
  nameRE_MatchString name = true ->
  genMigrationName version quote name
  = ((version ++ "_" ++ name)%string, None).
Proof.
  intros Hname. unfold genMigrationName. rewrite Hname.
  unfold nameRE_MatchString in Hname.
  destruct (String.eqb name ""); [discriminate|reflexivity].
Qed.

Lemma genMigrationName_refuses version quote name :
  nameRE_MatchString name = false ->
  fst (genMigrationName version quote name) = ""%string
  /\ snd (genMigrationName version quote name) <> None.
Proof.
  intros Hname. unfold genMigrationName. rewrite Hname.
  destruct (String.eqb name ""); cbn; split;
    try reflexivity; discriminate.
Qed.

(** X23: [genMigrationName] accepts exactly the names that are not empty
    and made of digits, lower-case letters, [_] and [-]; for these it
    returns the time stamp, an underscore and the name, which is again a
    name it would accept; for all others it returns an empty string and an
    error. *)
Theorem genMigrationName_valid_names :
  forall (version : string) (quote : string -> string) (name : string),
    (snd (genMigrationName version quote name) = None
     <-> nameRE_MatchString name = true)
    /\ (nameRE_MatchString name = true ->
        genMigrationName version quote name
        = ((version ++ "_" ++ name)%string, None))
    /\ (nameRE_MatchString name = false ->
        fst (genMigrationName version quote name) = ""%string)
    /\ (all_allowed version = true ->
        nameRE_MatchString name = true ->
        nameRE_MatchString (version ++ "_" ++ name)%string = true).
Proof.
  intros version quote name. split; [|split; [|split]].
  - split.
    + intros Hnil. destruct (nameRE_MatchString name) eqn:Hname;
        [reflexivity|].
      destruct (genMigrationName_refuses version quote name Hname)
        as [_ Herr]. contradiction.
    + intros Hname. rewrite genMigrationName_accepts by exact Hname.
      reflexivity.
  - apply genMigrationName_accepts.
  - intros Hname. apply genMigrationName_refuses, Hname.
  - intros Hversion Hname. unfold nameRE_MatchString in *.
    apply andb_prop in Hname. destruct Hname as [_ Hname].
    rewrite !all_allowed_app, Hversion, Hname.
    destruct version; reflexivity.
Qed.

(** X24: [CreateSQLMigrations] writes nothing for a name that is refused.
    For an accepted name it writes the up file and then the down file,
    both with the SQL template, under the generated name in the
    migrations directory, and returns the two files in that order.  When
    the up file cannot be written nothing is written; when the down file
    cannot be written the up file stays behind and only the error is
    returned. *)
Theorem CreateSQLMigrations_files :
  forall (version : string) (quote : string -> string)
         (Join : string -> string -> string)
         (directory goTemplate sqlTemplate : string)
         (fs : FS) (name : string),
    let run :=
      CreateSQLMigrations version quote Join directory goTemplate
                          sqlTemplate fs name in
    let base := (version ++ "_" ++ name)%string in
    let up := (base ++ ".up.sql")%string in
    let down := (base ++ ".down.sql")%string in
    (nameRE_MatchString name = false ->
     fst run = fs /\ fst (snd run) = None /\ snd (snd run) <> None)
    /\ (nameRE_MatchString name = true ->
        match writeErr fs (Join directory up),
              writeErr fs (Join directory down) with
        | Some err, _ => run = (fs, (None, Some err))
        | None, Some err =>
            written_files (fst run)
            = written_files fs ++ [(Join directory up, sqlTemplate)]
            /\ snd run = (None, Some err)
        | None, None =>
            written_files (fst run)
            = written_files fs
              ++ [(Join directory up, sqlTemplate);
                  (Join directory down, sqlTemplate)]
            /\ exists files,
                 snd run = (Some files, None)
                 /\ map file_Name files = [up; down]
                 /\ map file_Path files
                    = [Join directory up; Join directory down]
        end).
Proof.
  intros version quote Join directory goTemplate sqlTemplate fs name
         run base up down.
  subst run base up down. split.
  - intros Hname.
    destruct (genMigrationName_refuses version quote name Hname)
      as [_ Herr].
    unfold CreateSQLMigrations.
    destruct (genMigrationName version quote name) as [generated [err|]];
      [|contradiction].
    cbn. repeat split. discriminate.
  - intros Hname. unfold CreateSQLMigrations.
    rewrite genMigrationName_accepts by exact Hname.
    unfold createSQL, WriteFile.
    destruct (writeErr fs
                (Join directory ((version ++ "_" ++ name) ++ ".up.sql")%string))
      as [err|]; [reflexivity|].
    cbn [writeErr].
    destruct (writeErr fs
                (Join directory ((version ++ "_" ++ name) ++ ".down.sql")%string))
      as [err|].
    + cbn. split; reflexivity.
    + cbn. split; [rewrite <- app_assoc; reflexivity|].
      eexists. repeat split.
Qed.

End NamesFacts.

Section StatusFacts.
Import chmigrate.status.

Lemma migrationMap_fold applied :
  forall acc,
    fold_left (fun mp m => map_set mp (Name m) m) applied acc
    = rev (map (fun m => (Name m, m)) applied) ++ acc.
Proof.
  induction applied as [|m applied IH]; intros acc; [reflexivity|].
  cbn [fold_left map rev]. rewrite IH. unfold map_set.
  rewrite <- app_assoc. reflexivity.
Qed.

Lemma map_get_bindings ms name :
  map_get (map (fun m => (Name m, m)) ms) name
  = find (fun m2 => String.eqb (Name m2) name) ms.
Proof.
  induction ms as [|m ms IH]; [reflexivity|].
  cbn [map map_get find]. rewrite IH. reflexivity.
Qed.

(** A name is looked up in the map as the last applied migration with
    that name. *)
Lemma map_get_migrationMap applied name :
  map_get (migrationMap applied) name = last_applied applied name.
Proof.
  unfold migrationMap, last_applied.
  rewrite migrationMap_fold, app_nil_r, <- map_rev.
  apply map_get_bindings.
Qed.

(** X25: [migrationsWithStatus] returns the sorted migrations one for one
    and in their order, with their names.  A migration takes the group and
    the time of the applied migration with its name, of the last one when
    several have it, and is left as it is when none has; when the
    selection of the applied migrations fails, only the error is
    returned. *)
Theorem migrationsWithStatus_merge :
  forall (sorted applied : list Migration)
         (LastGroupID : list Migration -> Z) (err : chmigrate.error),
    let merged :=
      map (fun m1 =>
             match last_applied applied (Name m1) with
             | Some m2 =>
                 {| Name := Name m1; GroupID := GroupID m2;
                    MigratedAt := MigratedAt m2 |}
             | None => m1
             end)
          sorted in
    migrationsWithStatus sorted (applied, None) LastGroupID
    = (Some merged, LastGroupID applied, None)
    /\ map Name merged = map Name sorted
    /\ migrationsWithStatus sorted (applied, Some err) LastGroupID
       = (None, 0%Z, Some err).
Proof.
  intros sorted applied LastGroupID err merged. subst merged.
  split; [|split].
  - unfold migrationsWithStatus. f_equal. f_equal. f_equal.
    apply map_ext. intros m1. rewrite map_get_migrationMap. reflexivity.
  - rewrite map_map. apply map_ext. intros m1.
    destruct (last_applied applied (Name m1)); reflexivity.
  - reflexivity.
Qed.

End StatusFacts.

(* ------------------------------------------------------------------------- *)
(** ** Further scenarios *)

Section MoreScenarios.
Import ch.

Lemma one_column_named :
  Forall (fun c => wColName c <> ""%string /\ wColType c <> ""%string)
         [one_column].
Proof. constructor; [split; discriminate|constructor]. Defined.

Lemma one_column_block_well_formed :
  well_formed (Data "" info 1 [one_column]).
Proof. split; [reflexivity|exact one_column_named]. Defined.

Lemma readBlock_well_formed_block_witness :
  exists block',
    readBlock (block_payload "" info 1 [one_column] ++ [Uvarint_ 5])
              newBlock
    = ([Uvarint_ 5], block', None)
    /\ NumColumn block' = 1%Z /\ NumRow block' = 1%Z.
Proof.
  assert (Hlen : (Z.of_nat (List.length [one_column]) < 2 ^ 63)%Z)
    by reflexivity.
  destruct (readBlock_well_formed_block "" info 1 [one_column] [Uvarint_ 5]
              newBlock Hlen one_column_named)
    as (block' & Hrun & Hcolumns & Hrows & _).
  exists block'. split; [exact Hrun|]. split; assumption.
Defined.

Lemma readBlock_success_columns_witness :
  exists cols,
    List.length cols = 1
    /\ Forall (fun c => colName c <> ""%string /\ colType c <> ""%string)
              cols.
Proof.
  destruct (readBlock_success_columns
              (block_payload "" info 1 [one_column]) [] newBlock
              {| NumColumn := 1; NumRow := 1;
                 Columns := [column_of one_column] |}
              eq_refl)
    as (cols & _ & Hlen & Hall).
  exists cols. split; assumption.
Defined.

Lemma readException_messages_trimmed_witness :
  trimmed_chain
    (ErrorRef
       (mkError 60 "DB::Exception" "Table default.t doesn't exist" "" None)).
Proof.
  exact (readException_messages_trimmed
           (exception_payload missing_table []) _ eq_refl).
Defined.

Lemma table_columns_only :
  forallb is_TableColumns [TableColumns "" "columns format version: 1"]
  = true.
Proof. reflexivity. Defined.

Lemma readSampleBlock_first_block_witness :
  @readSampleBlock clickhouse
    (@stream_payload clickhouse
       [TableColumns "" "columns format version: 1";
        Data "" info 1 [one_column]]
     ++ [Uvarint_ 5])
  = ([Uvarint_ 5],
     (Some {| NumColumn := 1; NumRow := 1;
              Columns := [column_of one_column] |},
      None)).
Proof.
  exact (@readSampleBlock_first_block clickhouse
           [TableColumns "" "columns format version: 1"]
           "" info 1 [one_column] [Uvarint_ 5]
           table_columns_only one_column_block_well_formed).
Defined.

Lemma readSampleBlock_rejects_other_packets_witness :
  @readSampleBlock clickhouse
    (@stream_payload clickhouse [TableColumns "" "columns format version: 1"]
     ++ [Uvarint_ 5])
  = ([], (None,
          Some (errorString "ch: readSampleBlock: unexpected packet: 5"))).
Proof.
  assert (H1 : 255%N <> @ServerData clickhouse) by discriminate.
  assert (H2 : 255%N <> @ServerTableColumns clickhouse) by discriminate.
  assert (H3 : 255%N <> @ServerException clickhouse) by discriminate.
  destruct (@readSampleBlock_rejects_other_packets clickhouse
              [TableColumns "" "columns format version: 1"] 255%N []
              table_columns_only H1 H2 H3)
    as (_ & Hend & _).
  exact Hend.
Defined.

Lemma readPacket_one_packet_witness :
  @readPacket clickhouse
    (@packet_payload clickhouse (Progress 1 2 3 4 5) ++ [Uvarint_ 5])
  = ([Uvarint_ 5], (Some {| affected := 0 |}, None)).
Proof.
  exact (proj1 (@readPacket_one_packet clickhouse (Progress 1 2 3 4 5)
                  [Uvarint_ 5] eq_refl)).
Defined.


Lemma huge_block_well_formed :
  Forall well_formed [Data "" info (2 ^ 63) []].
Proof.
  constructor; [split; [reflexivity|constructor]|constructor].
Defined.

(** A block without columns that announces 2^63 rows: the count becomes
    negative. *)
Lemma readDataBlocks_affected_wraps_witness :
  @readDataBlocks clickhouse
    (@stream_payload clickhouse [Data "" info (2 ^ 63) []] ++ [Uvarint_ 5])
  = ([], (Some {| affected := (- 2 ^ 63)%Z |}, None)).
Proof.
  exact (@readDataBlocks_affected_wraps clickhouse
           [Data "" info (2 ^ 63) []] [] huge_block_well_formed).
Defined.

Lemma Next_data_packet_witness :
  @Next clickhouse {| released := [] |}
    (newBlockIter
       (conn (@stream_payload clickhouse
                [Progress 1 2 3 4 5; Data "" info 1 [one_column]]
              ++ [Uvarint_ 5])))
    newBlock
  = ({| released := [] |},
     newBlockIter (conn [Uvarint_ 5]),
     {| NumColumn := 1; NumRow := 1; Columns := [column_of one_column] |},
     true).
Proof.
  exact (@Next_data_packet clickhouse {| released := [] |} (conn []) None
           [Progress 1 2 3 4 5] "" info 1 [one_column] [Uvarint_ 5]
           newBlock eq_refl one_column_block_well_formed).
Defined.

Lemma writeSettings_empty_key_witness :
  exists more,
    fst (writeSettings
           {| Database := ""; User := ""; Password := "";
              QuerySettings :=
                [("a"%string, VBool true); (""%string, VInt 1);
                 ("b"%string, VBool false)] |}
           [])
    = [wString "a"; wBool true; wString ""] ++ more.
Proof.
  destruct (writeSettings_empty_key
              {| Database := ""; User := ""; Password := "";
                 QuerySettings := [] |}
              [("a"%string, VBool true)] [("b"%string, VBool false)]
              (VInt 1) [] eq_refl)
    as [more Hmore].
  exists more. exact Hmore.
Defined.

Lemma minus_one_in_range : (- 2 ^ 63 <= -1 < 0)%Z.
Proof. split; [discriminate|reflexivity]. Defined.

Lemma writeSettings_signed_as_unsigned_witness :
  uint64_of_int (-1) = 18446744073709551615%N.
Proof.
  destruct (writeSettings_signed_as_unsigned
              {| Database := ""; User := ""; Password := "";
                 QuerySettings := [] |} [] [] (-1))
    as (_ & Hneg & _).
  exact (proj1 (Hneg minus_one_in_range)).
Defined.

Lemma writeQuery_layout_witness :
  @writeQuery clickhouse_query "host" ""
    {| Database := ""; User := ""; Password := "";
       QuerySettings := [("max_threads"%string, VOther "float64")] |}
    [] "SELECT 1"
  = ("host"%string,
     @query_header clickhouse_query "host" ++ [wString "max_threads"],
     Some (errorString "max_threads setting has unsupported type: float64")).
Proof.
  exact (proj2 (writeQuery_layout clickhouse_query "host" ""
                  {| Database := ""; User := ""; Password := "";
                     QuerySettings := [] |}
                  [] [] "max_threads" "float64" [] "SELECT 1" eq_refl)).
Defined.

End MoreScenarios.

Section MigrationScenarios.
Import chmigrate.

Lemma two_quiet_ups :
  Forall (fun migration => Up migration <> None /\ quiet (Up migration))
         [migration "m1" succeeds succeeds; migration "m2" succeeds fails].
Proof.
  repeat (constructor;
          [split; [discriminate|intros db; reflexivity]|]).
  constructor.
Defined.

Lemma Migrate_group_records_all_witness :
  inserted
    (fst (Migrate_group NewMigrator false 1 accepting
            [migration "m1" succeeds succeeds;
             migration "m2" succeeds fails]))
  = [{| row_table := "ch_migrations"; row_name := "m1";
        row_group_id := 1; row_sign := 1 |};
     {| row_table := "ch_migrations"; row_name := "m2";
        row_group_id := 1; row_sign := 1 |}].
Proof.
  rewrite (Migrate_group_records_all NewMigrator false 1 accepting _
             two_quiet_ups (fun _ => eq_refl)).
  reflexivity.
Defined.

Lemma read_only_refuses : forall row, insertErr read_only row <> None.
Proof. intros row. discriminate. Defined.

Lemma Migrate_group_drops_insert_errors_witness :
  Migrate_group NewMigrator false 1 read_only
    [migration "m1" succeeds succeeds; migration "m2" succeeds fails]
  = (read_only,
     Returns (map (applied_in 1)
                  [migration "m1" succeeds succeeds;
                   migration "m2" succeeds fails],
              None)).
Proof.
  exact (Migrate_group_drops_insert_errors NewMigrator false 1 read_only _
           two_quiet_ups read_only_refuses).
Defined.

Lemma Migrate_nil_Up_and_nop_witness :
  Migrate_range NewMigrator false 1 accepting []
    [{| Name := "m1"; GroupID := 0; Sign := 0; Up := None; Down := None |}]
  = (accepting, Panics).
Proof.
  destruct (Migrate_nil_Up_and_nop NewMigrator 1 accepting accepting [] []
              {| Name := "m1"; GroupID := 0; Sign := 0; Up := None;
                 Down := None |}
              succeeds (dbError ""))
    as [Hnil _].
  exact (proj1 (Hnil eq_refl)).
Defined.

Lemma Rollback_group_records_reversed_witness :
  map row_name
      (inserted
         (fst (Rollback_group NewMigrator true accepting
                 [migration "m1" succeeds fails;
                  migration "m2" succeeds fails])))
  = ["m2"; "m1"]%string.
Proof.
  rewrite (Rollback_group_records_reversed NewMigrator true accepting
             [migration "m1" succeeds fails; migration "m2" succeeds fails]
             (or_introl eq_refl) (fun _ => eq_refl)).
  reflexivity.
Defined.

Lemma one_migration : [migration "m1" succeeds succeeds] <> [].
Proof. discriminate. Defined.

Lemma Migrate_needs_migrations_and_lock_witness :
  executed
    (fst (Migrate NewMigrator [migration "m1" succeeds succeeds] false
            (fun _ => ([migration "m1" succeeds succeeds], 0%Z, None))
            (fun ms => ms)
            {| ses_db := lock_column true; executed := [] |}))
  = ["ALTER TABLE ? ADD COLUMN ? Int8"%string]
  /\ inserted
       (ses_db
          (fst (Migrate NewMigrator [migration "m1" succeeds succeeds] false
                  (fun _ => ([migration "m1" succeeds succeeds], 0%Z, None))
                  (fun ms => ms)
                  {| ses_db := lock_column true; executed := [] |})))
     = [].
Proof.
  destruct (Migrate_needs_migrations_and_lock NewMigrator
              [migration "m1" succeeds succeeds] false
              (fun _ => ([migration "m1" succeeds succeeds], 0%Z, None))
              (fun ms => ms)
              (fun _ => ([migration "m1" succeeds succeeds], None))
              (fun ms => {| ID := 0; Migrations := ms |})
              {| ses_db := lock_column true; executed := [] |}
              (dbError
                 "DB::Exception: Cannot add column lock: column with this name already exists"))
    as [_ Hlocked].
  destruct (Hlocked one_migration eq_refl) as [Hmigrate _].
  rewrite Hmigrate. split; reflexivity.
Defined.

Lemma Migrate_releases_lock_witness :
  executed
    (fst (Migrate NewMigrator [migration "m1" fails succeeds] false
            (fun _ => ([migration "m1" fails succeeds], 0%Z, None))
            (fun ms => ms)
            {| ses_db := lock_column false; executed := [] |}))
  = ["ALTER TABLE ? ADD COLUMN ? Int8"; "ALTER TABLE ? DROP COLUMN ?"]
    %string.
Proof.
  exact (proj1 (Migrate_releases_lock NewMigrator
                  [migration "m1" fails succeeds] false
                  (fun _ => ([migration "m1" fails succeeds], 0%Z, None))
                  (fun ms => ms)
                  (fun _ => ([migration "m1" fails succeeds], None))
                  (fun ms => {| ID := 0; Migrations := ms |})
                  {| ses_db := lock_column false; executed := [] |}
                  ltac:(discriminate) eq_refl)).
Defined.

Lemma Migrate_nothing_to_apply_witness :
  snd (Migrate NewMigrator [migration "m1" succeeds succeeds] false
         (fun _ => ([migration "m1" succeeds succeeds], 1%Z, None))
         (fun _ => [])
         {| ses_db := lock_column false; executed := [] |})
  = Returns (Some {| ID := 0; Migrations := [] |}, None).
Proof.
  rewrite (Migrate_nothing_to_apply NewMigrator
             [migration "m1" succeeds succeeds] false
             (fun _ => ([migration "m1" succeeds succeeds], 1%Z, None))
             (fun _ => [])
             {| ses_db := lock_column false; executed := [] |}
             [migration "m1" succeeds succeeds] 1%Z
             one_migration eq_refl eq_refl eq_refl).
  reflexivity.
Defined.

Lemma genMigrationName_valid_names_witness :
  genMigrationName "20260101120000" (fun s => s) "add_users"
  = ("20260101120000_add_users"%string, None)
  /\ nameRE_MatchString "20260101120000_add_users" = true.
Proof.
  destruct (genMigrationName_valid_names "20260101120000" (fun s => s)
              "add_users")
    as (_ & Haccepted & _ & Hagain).
  split; [exact (Haccepted eq_refl)|exact (Hagain eq_refl eq_refl)].
Defined.

Lemma CreateSQLMigrations_files_witness :
  written_files
    (fst (CreateSQLMigrations "20260101120000" (fun s => s)
            (fun dir file => (dir ++ "/" ++ file)%string)
            "migrations" "package %s" "SELECT 1" empty_fs "add_users"))
  = [("migrations/20260101120000_add_users.up.sql"%string,
      "SELECT 1"%string);
     ("migrations/20260101120000_add_users.down.sql"%string,
      "SELECT 1"%string)].
Proof.
  destruct (CreateSQLMigrations_files "20260101120000" (fun s => s)
              (fun dir file => (dir ++ "/" ++ file)%string)
              "migrations" "package %s" "SELECT 1" empty_fs "add_users")
    as [_ Hfiles].
  exact (proj1 (Hfiles eq_refl)).
Defined.

End MigrationScenarios.
